(** * graphql-exporter: the refresh-and-collect engine of [internal/prometheus]

    A shallow embedding of the exporter's collector: how the configuration is
    compiled into typed collectors ([newGraphqlCollector]), how a refresh pass
    walks the query sets ([getMetrics], [updateMetrics]), how a scrape emits
    and resets ([Collect]), and how the two mutexes order scrapes and
    refreshes ([atomicUpdate] and the interleaving machine at the end).

    float64 values are Rocq's primitive binary64 floats, int64 values are [Z]
    with the wrap-around written out, Go maps are [gmap]s. *)

From Stdlib Require Import ZArith String Ascii List Bool Lia.
From Stdlib Require Import Floats.PrimFloat Uint63.
From stdpp Require Import gmap strings list fin_maps sorting.

Local Open Scope string_scope.
Local Open Scope list_scope.
Local Open Scope Z_scope.

Abbreviation float64 := PrimFloat.float (only parsing).

(** ** int64 arithmetic *)

(** The value an int64 computation leaves for the mathematical result [z]. *)
Definition wrap64 (z : Z) : Z := (z + 2 ^ 63) `mod` 2 ^ 64 - 2 ^ 63.

Definition sub64 (a b : Z) : Z := wrap64 (a - b).

(** ** strings.Replace with n = -1 *)

Fixpoint replaceFrom (fuel : nat) (s old new : string) : string :=
  match fuel with
  | O => s
  | S fuel' =>
      if String.prefix old s
      then new +:+ replaceFrom fuel' (String.substring (String.length old)
                                        (String.length s - String.length old) s) old new
      else match s with
           | EmptyString => EmptyString
           | String c rest => String c (replaceFrom fuel' rest old new)
           end
  end.

(** [strings.Replace(s, old, new, -1)] for a non-empty [old]: every
    non-overlapping occurrence, left to right.  (The exporter only calls it
    with the separators [","], [".*."] and ["."].) *)
Definition Replace (s old new : string) : string :=
  match old with
  | EmptyString => s
  | _ => replaceFrom (S (String.length s)) s old new
  end.

(** ** internal/config *)

Module config.

Record Metric := {
  Description : string;
  MetricType : string;
  Placeholder : string;
  Labels : list string;
  Value : string;
  Name : string;
}.

(** The field holding the query text is [Query] in the source; it is
    spelled by its YAML key here because the record has that name. *)
Record Query := {
  query : string;
  Subsystem : string;
  Metrics : list Metric;
}.

(** [LabelPathSeparator] is read by [newGraphqlCollector]
    ([config.Config.LabelPathSeparator]). *)
Record Cfg := {
  MetricsPrefix : string;
  GraphqlURL : string;
  GraphqlAPIToken : string;
  CacheExpire : Z;
  QueryTimeout : Z;
  FailFast : bool;
  ExtendCacheOnError : bool;
  LabelPathSeparator : string;
  Queries : list Query;
}.

End config.

(** ** The Prometheus client: metric vectors keyed by label tuples *)

Module prom.

Module HistogramOpts.
Record t := {
  Namespace : string;
  Subsystem : string;
  Name : string;
  Help : string;
  Buckets : list float64;
}.
End HistogramOpts.

(** [GaugeOpts] and [CounterOpts] are both [prometheus.Opts]. *)
Module Opts.
Record t := {
  Namespace : string;
  Subsystem : string;
  Name : string;
  Help : string;
}.
End Opts.

(** A vector's children, one per label-value tuple.  A histogram child is
    kept as the sequence of values observed since it was created; a gauge
    or a counter child is its current value. *)
Inductive Collector :=
| HistogramVec (o : HistogramOpts.t) (labelNames : list string)
               (children : gmap (list string) (list float64))
| GaugeVec (o : Opts.t) (labelNames : list string)
           (children : gmap (list string) float64)
| CounterVec (o : Opts.t) (labelNames : list string)
             (children : gmap (list string) float64)
| OtherCollector.

Definition NewHistogramVec (o : HistogramOpts.t) (labelNames : list string) : Collector :=
  HistogramVec o labelNames ∅.

Definition NewGaugeVec (o : Opts.t) (labelNames : list string) : Collector :=
  GaugeVec o labelNames ∅.

(** [v.WithLabelValues(labels...)] returns the child for the tuple,
    creating it (no observation, value 0) when it is missing; the
    operations below are the method then called on that child.  The
    arity of [labels] is taken as given: the vectors are built from the
    extractor's sorted paths and fed tuples by that same extractor. *)
Definition Observe (labels : list string) (f : float64)
    (children : gmap (list string) (list float64)) : gmap (list string) (list float64) :=
  <[labels := default [] (children !! labels) ++ [f]]> children.

Definition Set_ (labels : list string) (f : float64)
    (children : gmap (list string) float64) : gmap (list string) float64 :=
  <[labels := f]> children.

Definition Add (labels : list string) (f : float64)
    (children : gmap (list string) float64) : gmap (list string) float64 :=
  <[labels := PrimFloat.add (default 0%float (children !! labels)) f]> children.

(** What a vector sends on the channel for one child. *)
Inductive Sample :=
| HistogramSample (name : string) (labels : list string) (observed : list float64)
| GaugeSample (name : string) (labels : list string) (v : float64)
| CounterSample (name : string) (labels : list string) (v : float64).

(** [c.Collect(ch)]: one sample per child. *)
Definition Collect (c : Collector) : list Sample :=
  match c with
  | HistogramVec o _ children =>
      (λ kv, HistogramSample (HistogramOpts.Name o) kv.1 kv.2) <$> map_to_list children
  | GaugeVec o _ children =>
      (λ kv, GaugeSample (Opts.Name o) kv.1 kv.2) <$> map_to_list children
  | CounterVec o _ children =>
      (λ kv, CounterSample (Opts.Name o) kv.1 kv.2) <$> map_to_list children
  | OtherCollector => []
  end.

(** [c.Reset()] on a histogram vector deletes every child. *)
Definition Reset (c : Collector) : Collector :=
  match c with
  | HistogramVec o labelNames _ => HistogramVec o labelNames ∅
  | _ => c
  end.

End prom.

(** ** strconv *)

Inductive NumError := ErrSyntax | ErrRange.

(** [strconv.ParseFloat(s, 64)]: the value and the error it returns. *)
Class Strconv := { ParseFloat : string -> float64 * option NumError }.

(** ** encoding/json *)

Module json.

(** A JSON text as its syntax tree.  Numbers keep their literal. *)
#[local] Set Warnings "-register-all".
Inductive Value :=
| Null
| Bool (b : bool)
| Num (literal : string)
| Str (s : string)
| Arr (items : list Value)
| Obj (members : list (string * Value)).

Inductive error := SyntaxError | UnmarshalTypeError.

Definition lowerAscii (c : ascii) : ascii :=
  let n := nat_of_ascii c in
  if (65 <=? n)%nat && (n <=? 90)%nat then ascii_of_nat (n + 32) else c.

Fixpoint lower (s : string) : string :=
  match s with
  | EmptyString => EmptyString
  | String c rest => String (lowerAscii c) (lower rest)
  end.

(** A key selects the struct field [name] when it is that name up to the
    case of its letters. *)
Definition matchesField (name key : string) : bool :=
  String.eqb (lower key) (lower name).

End json.

(** ** The remote endpoint and the clock *)

(** The bytes a query returned: a JSON text, or bytes that are not one. *)
Inductive RawBody :=
| Malformed
| Document (j : json.Value).

(** What [graphql.GraphqlQuery] returns: [err] or the response bytes. *)
Inductive QueryResult :=
| QueryError (msg : string)
| QueryOk (body : RawBody).

(** One exchange: how many seconds it took and what came back. *)
Record Reply := { elapsed : Z; result : QueryResult }.

(** Modelled from the spec: the remote-query transport of package
    [internal/graphql], [execute(queryString, timeout) -> rawBytes, error],
    is not among the sources.  The world holds the wall clock in Unix
    seconds and an oracle giving the reply to the n-th call; a call
    advances the clock by the time the exchange took. *)
Record World := {
  clock : Z;
  calls : nat;
  remote : nat -> string -> Reply;
}.

(** Modelled from the spec: [graphql.GraphqlQuery(ctx, query)], the call
    to the transport; it returns what the oracle says for this call and
    leaves the world one call and [elapsed] seconds later. *)
Definition GraphqlQuery (q : string) (w : World) : QueryResult * World :=
  let r := remote w (calls w) q in
  (result r, {| clock := clock w + elapsed r; calls := S (calls w); remote := remote w |}).

(** [time.Now().Unix()] *)
Definition Now (w : World) : Z := clock w.

(** ** The decoded response *)

Record Graphql := { Data : option (gmap string json.Value) }.

(** Storing the value of a ["data"] member into the [Data] field, whose
    type is [map[string]interface{}]: [null] sets the map to nil; an object
    is decoded into the map already there (a nil map is allocated first),
    member by member, keeping the entries whose keys the object does not
    mention; anything else is a type error and leaves the field alone. *)
Definition storeData (v : json.Value) (g : Graphql) : Graphql * option json.error :=
  match v with
  | json.Null => ({| Data := None |}, None)
  | json.Obj members =>
      ({| Data := Some (foldl (λ m kv, <[kv.1 := kv.2]> m) (default ∅ (Data g)) members) |},
       None)
  | _ => (g, Some json.UnmarshalTypeError)
  end.

(** Decoding the members of the top-level object into the struct: members
    are taken in order, those that do not name the field are skipped, and
    the earliest error is the one reported. *)
Fixpoint storeMembers (members : list (string * json.Value)) (g : Graphql)
    : Graphql * option json.error :=
  match members with
  | [] => (g, None)
  | (k, v) :: rest =>
      if json.matchesField "Data" k
      then let '(g', e) := storeData v g in
           let '(g'', e') := storeMembers rest g' in
           (g'', match e with Some _ => e | None => e' end)
      else storeMembers rest g
  end.

(** [json.Unmarshal(result, &gql)] for [gql : *Graphql].  Invalid JSON is
    rejected before anything is stored.  [null] sets the pointer to nil.
    Any other value allocates the struct when the pointer is nil and
    otherwise decodes into the struct the pointer already refers to. *)
Definition Unmarshal (body : RawBody) (gql : option Graphql)
    : option Graphql * option json.error :=
  match body with
  | Malformed => (gql, Some json.SyntaxError)
  | Document json.Null => (None, None)
  | Document (json.Obj members) =>
      let '(g, e) := storeMembers members (default {| Data := None |} gql) in
      (Some g, e)
  | Document _ => (Some (default {| Data := None |} gql), Some json.UnmarshalTypeError)
  end.

(** ** The extractor *)

(** [NewExtractor], [GetSortedPaths] and [ExtractMetrics] live in a file of
    the package that is not among the sources; the collector is written
    against this interface.  [NewExtractor] may hand back no extractor (nil)
    together with its error.  [ExtractMetrics e data] is the sequence of
    [(value, labels)] pairs on which the callback is invoked, in order. *)
Class ExtractorAPI (E : Type) := {
  NewExtractor : string -> string -> list string -> option E * option string;
  GetSortedPaths : E -> list string;
  ExtractMetrics : E -> gmap string json.Value -> list (string * list string);
}.

(** ** Go errors, log lines and control *)

Inductive error :=
| TransportError (msg : string)
| DecodeError (e : json.error).

Inductive Event :=
| Queried (q : string)
| LogLabelsDefinition (name : string) (msg : string)
| LogQueryError (msg : string)
| LogUnmarshalError (e : json.error)
| LogConvertFail (value : string)
| LogUnsupportedCollector
| LogCollectingMetrics (e : error)
| LogBadMetricType.

(** [err != nil] *)
Definition notNil {A} (err : option A) : bool :=
  match err with
  | Some _ => true
  | None => false
  end.

(** How a call ends: it returns a value, or a run-time panic unwinds it. *)
Inductive Run (A : Type) :=
| Returns (a : A)
| Panics.
Arguments Returns {A} a.
Arguments Panics {A}.

#[export] Instance Run_ret : MRet Run := λ A a, Returns a.
#[export] Instance Run_bind : MBind Run := λ A B k r,
  match r with
  | Returns a => k a
  | Panics => Panics
  end.

(** ** Package prometheus: the collector *)

#[local] Set Warnings "-inexact-float".
Definition latencyHistogramBuckets : list float64 :=
  [0.1; 0.25; 0.5; 1; 2.5; 5; 10; 15; 20; 30; 40; 50; 60; 90; 150; 210; 270;
   330; 390; 450; 500; 600; 1200; 1800; 2700; 3600]%float.

(** The outcome of a loop iteration or of a whole call: fall through (at
    the end of [getMetrics], [return nil]), [return err], or a panic. *)
Inductive Ctl :=
| Continue
| ReturnErr (err : error)
| Panic.

Section Exporter.

Context `{Strconv} {E : Type} `{ExtractorAPI E}.

(** The global [config.Config]. *)
Variable cfg : config.Cfg.

Record Metric := {
  Collector : prom.Collector;
  Config : config.Metric;
  Extractor : E;
}.

Record QuerySet := {
  Query : string;
  Metrics : list Metric;
}.

(** The two mutexes are [true] while locked. *)
Record GraphqlCollector := {
  cachedQuerySet : list QuerySet;
  cachedAt : Z;
  updaterIsRunning : bool;
  updaterMu : bool;
  accessMu : bool;
  graphqlURL : string;
}.

(** *** newGraphqlCollector *)

Definition metricName (m : config.Metric) : string :=
  if String.eqb (config.Name m) ""
  then config.MetricsPrefix cfg +:+ Replace (config.Value m) "," "_"
  else config.Name m.

Definition labelName (label : string) : string :=
  Replace (Replace label ".*." "_") "." "_".

(** The [switch] on [m.MetricType]. *)
Definition newCollector (q : config.Query) (m : config.Metric)
    (name : string) (labels : list string) : prom.Collector :=
  if String.eqb (config.MetricType m) "histogram"
  then prom.NewHistogramVec
         {| prom.HistogramOpts.Namespace := config.MetricsPrefix cfg;
            prom.HistogramOpts.Subsystem := config.Subsystem q;
            prom.HistogramOpts.Name := name;
            prom.HistogramOpts.Help := config.Description m;
            prom.HistogramOpts.Buckets := latencyHistogramBuckets |}
         labels
  else prom.NewGaugeVec
         {| prom.Opts.Namespace := config.MetricsPrefix cfg;
            prom.Opts.Subsystem := config.Subsystem q;
            prom.Opts.Name := name;
            prom.Opts.Help := config.Description m |}
         labels.

(** The body of the inner loop, for one configured metric.  Calling
    [GetSortedPaths] on a nil extractor panics. *)
Definition newMetric (q : config.Query) (m : config.Metric) : Run (Metric * list Event) :=
  let '(extractor, err) :=
    NewExtractor (config.LabelPathSeparator cfg) (config.Value m) (config.Labels m) in
  let logged :=
    match err with
    | Some e => [LogLabelsDefinition (config.Name m) e]
    | None => []
    end in
  let name := metricName m in
  match extractor with
  | None => Panics
  | Some ex =>
      let labels := labelName <$> GetSortedPaths ex in
      Returns ({| Collector := newCollector q m name labels;
                  Config := m;
                  Extractor := ex |}, logged)
  end.

Definition newQuerySet (q : config.Query) : Run (QuerySet * list Event) :=
  ms ← mapM (newMetric q) (config.Metrics q);
  mret ({| Query := config.query q; Metrics := ms.*1 |}, concat ms.*2).

Definition newGraphqlCollector : Run (GraphqlCollector * list Event) :=
  qs ← mapM newQuerySet (config.Queries cfg);
  mret ({| cachedQuerySet := qs.*1;
           cachedAt := 0;
           updaterIsRunning := false;
           updaterMu := false;
           accessMu := false;
           graphqlURL := config.GraphqlURL cfg |}, concat qs.*2).

(** *** getMetrics *)

(** The increment a counter receives for a parsed value. *)
Definition counterIncrement (parsed : float64 * option NumError) : float64 :=
  if notNil parsed.2 || PrimFloat.ltb parsed.1 0%float
  then 1%float
  else parsed.1.

(** [callbackFunc]: what one extracted [(value, labels)] pair does to the
    metric's collector. *)
Definition callbackFunc (c : prom.Collector) (value : string) (labels : list string)
    : prom.Collector * list Event :=
  if String.eqb value "" then (c, [])
  else
    match c with
    | prom.HistogramVec o names children =>
        let '(f, err) := ParseFloat value in
        (prom.HistogramVec o names (prom.Observe labels f children),
         match err with Some _ => [LogConvertFail value] | None => [] end)
    | prom.GaugeVec o names children =>
        let '(f, err) := ParseFloat value in
        (prom.GaugeVec o names (prom.Set_ labels f children),
         match err with Some _ => [LogConvertFail value] | None => [] end)
    | prom.CounterVec o names children =>
        let f := counterIncrement (ParseFloat value) in
        (prom.CounterVec o names (prom.Add labels f children), [])
    | prom.OtherCollector => (c, [LogUnsupportedCollector])
    end.

(** [ExtractMetrics(data, callbackFunc)]: the callback applied to each
    extracted pair in turn. *)
Fixpoint feed (c : prom.Collector) (pairs : list (string * list string))
    : prom.Collector * list Event :=
  match pairs with
  | [] => (c, [])
  | (value, labels) :: rest =>
      let '(c1, l1) := callbackFunc c value labels in
      let '(c2, l2) := feed c1 rest in
      (c2, l1 ++ l2)
  end.

Definition extractInto (data : gmap string json.Value) (m : Metric) : Metric * list Event :=
  let '(c, l) := feed (Collector m) (ExtractMetrics (Extractor m) data) in
  ({| Collector := c; Config := Config m; Extractor := Extractor m |}, l).

(** [for _, m := range q.Metrics { ... }] *)
Fixpoint extractAll (data : gmap string json.Value) (ms : list Metric)
    : list Metric * list Event :=
  match ms with
  | [] => ([], [])
  | m :: rest =>
      let '(m', l1) := extractInto data m in
      let '(rest', l2) := extractAll data rest in
      (m' :: rest', l1 ++ l2)
  end.

(** What the pass carries from one query to the next: the variable
    [gql], declared before the loop, the world, and what was logged. *)
Record PassState := {
  gql : option Graphql;
  world : World;
  logged : list Event;
}.

(** One iteration of [for _, q := range collector.cachedQuerySet]. *)
Definition queryStep (q : QuerySet) (s : PassState) : QuerySet * PassState * Ctl :=
  let '(res, w) := GraphqlQuery (Query q) (world s) in
  let l := logged s ++ [Queried (Query q)] in
  match res with
  | QueryError msg =>
      if config.FailFast cfg
      then (q, {| gql := gql s; world := w; logged := l |}, ReturnErr (TransportError msg))
      else (q, {| gql := gql s; world := w; logged := l ++ [LogQueryError msg] |}, Continue)
  | QueryOk body =>
      let '(g, err) := Unmarshal body (gql s) in
      match err with
      | Some e =>
          if config.FailFast cfg
          then (q, {| gql := g; world := w; logged := l |}, ReturnErr (DecodeError e))
          else (q, {| gql := g; world := w; logged := l ++ [LogUnmarshalError e] |}, Continue)
      | None =>
          match g with
          | None => (q, {| gql := g; world := w; logged := l |}, Panic)
          | Some g' =>
              match Data g' with
              | None => (q, {| gql := g; world := w; logged := l |}, Continue)
              | Some data =>
                  let '(ms, l') := extractAll data (Metrics q) in
                  ({| Query := Query q; Metrics := ms |},
                   {| gql := g; world := w; logged := l ++ l' |}, Continue)
              end
          end
      end
  end.

Fixpoint passLoop (qs : list QuerySet) (s : PassState) : list QuerySet * PassState * Ctl :=
  match qs with
  | [] => ([], s, Continue)
  | q :: rest =>
      let '(q', s', ctl) := queryStep q s in
      match ctl with
      | Continue =>
          let '(rest', s'', ctl') := passLoop rest s' in
          (q' :: rest', s'', ctl')
      | _ => (q' :: rest, s', ctl)
      end
  end.

(** [getMetrics]: [Continue] is [return nil] after the loop. *)
Definition getMetrics (c : GraphqlCollector) (w : World) : list QuerySet * PassState * Ctl :=
  passLoop (cachedQuerySet c) {| gql := None; world := w; logged := [] |}.

(** *** updateMetrics *)

Definition expired (c : GraphqlCollector) (w : World) : bool :=
  sub64 (Now w) (cachedAt c) >? config.CacheExpire cfg.

Definition withCache (c : GraphqlCollector) (qs : list QuerySet) (at_ : Z) : GraphqlCollector :=
  {| cachedQuerySet := qs;
     cachedAt := at_;
     updaterIsRunning := updaterIsRunning c;
     updaterMu := updaterMu c;
     accessMu := accessMu c;
     graphqlURL := graphqlURL c |}.

(** The statements after [err := collector.getMetrics()]. *)
Definition stampCache (c : GraphqlCollector) (pass : list QuerySet * PassState * Ctl)
    : GraphqlCollector * World * list Event * Ctl :=
  let '(qs, s, ctl) := pass in
  match ctl with
  | ReturnErr e =>
      (withCache c qs (if config.ExtendCacheOnError cfg then Now (world s) else cachedAt c),
       world s, logged s ++ [LogCollectingMetrics e], ReturnErr e)
  | Continue => (withCache c qs (Now (world s)), world s, logged s, Continue)
  | Panic => (withCache c qs (cachedAt c), world s, logged s, Panic)
  end.

(** [updateMetrics], run by a thread that gets [accessMu] at once. *)
Definition updateMetrics (c : GraphqlCollector) (w : World)
    : GraphqlCollector * World * list Event * Ctl :=
  if expired c w
  then stampCache c (getMetrics c w)
  else (c, w, [], Continue).

(** *** Collect: the emission loop *)

Definition collectMetric (m : Metric) : Metric * list prom.Sample * list Event :=
  match Collector m with
  | prom.CounterVec _ _ _ | prom.GaugeVec _ _ _ =>
      (m, prom.Collect (Collector m), [])
  | prom.HistogramVec _ _ _ =>
      ({| Collector := prom.Reset (Collector m); Config := Config m; Extractor := Extractor m |},
       prom.Collect (Collector m), [])
  | prom.OtherCollector => (m, [], [LogBadMetricType])
  end.

Fixpoint collectMetrics (ms : list Metric) : list Metric * list prom.Sample * list Event :=
  match ms with
  | [] => ([], [], [])
  | m :: rest =>
      let '(m', out1, l1) := collectMetric m in
      let '(rest', out2, l2) := collectMetrics rest in
      (m' :: rest', out1 ++ out2, l1 ++ l2)
  end.

Fixpoint collectQuerySets (qs : list QuerySet) : list QuerySet * list prom.Sample * list Event :=
  match qs with
  | [] => ([], [], [])
  | q :: rest =>
      let '(ms, out1, l1) := collectMetrics (Metrics q) in
      let '(rest', out2, l2) := collectQuerySets rest in
      ({| Query := Query q; Metrics := ms |} :: rest', out1 ++ out2, l1 ++ l2)
  end.

(** The loop of [Collect] over [collector.cachedQuerySet], run while
    [accessMu] is held: what goes to the channel, and the collector
    afterwards. *)
Definition emit (c : GraphqlCollector) : GraphqlCollector * list prom.Sample * list Event :=
  let '(qs, out, l) := collectQuerySets (cachedQuerySet c) in
  (withCache c qs (cachedAt c), out, l).

End Exporter.

Arguments Metric : clear implicits.
Arguments QuerySet : clear implicits.
Arguments GraphqlCollector : clear implicits.

(** ** Scrapes and refreshes as interleaved threads *)

(** Where a call of [Collect] stands; each constructor is the statement
    the thread executes next. *)
Inductive ScrapePc :=
| S_lockUpdater                 (* atomicUpdate: collector.updaterMu.Lock() *)
| S_readFlag                    (* start := !collector.updaterIsRunning *)
| S_setFlag (start : bool)      (* collector.updaterIsRunning = true *)
| S_unlockUpdater (start : bool)(* collector.updaterMu.Unlock() *)
| S_spawn (start : bool)        (* if start { go func() {...}() } *)
| S_lockAccess                  (* Collect: collector.accessMu.Lock() *)
| S_emit                        (* the loop over cachedQuerySet *)
| S_unlockAccess                (* deferred collector.accessMu.Unlock() *)
| S_done.

(** Where the goroutine started by [atomicUpdate] stands. *)
Inductive RefreshPc :=
| T_check                       (* updateMetrics: the test on cachedAt *)
| T_lockAccess                  (* collector.accessMu.Lock() *)
| T_pass                        (* err := collector.getMetrics(), and the stamping *)
| T_unlockAccess                (* deferred collector.accessMu.Unlock() *)
| T_lockUpdater                 (* collector.updaterMu.Lock() *)
| T_clearFlag                   (* collector.updaterIsRunning = false *)
| T_unlockUpdater               (* collector.updaterMu.Unlock() *)
| T_done.

Inductive Thread :=
| Scrape (pc : ScrapePc)
| Refresh (pc : RefreshPc).

Section Machine.

Context `{Strconv} {E : Type} `{ExtractorAPI E}.
Variable cfg : config.Cfg.

(** The process: the collector, the world, the threads (a thread is
    named by its position), what each scrape put on its channel, which
    scrapes executed the [go] statement, the log, and whether a panic
    has ended the process. *)
Record Machine := {
  coll : GraphqlCollector E;
  env : World;
  threads : list Thread;
  sink : list (list prom.Sample);
  starters : list nat;
  journal : list Event;
  crashed : bool;
}.

Definition setUpdaterMu (c : GraphqlCollector E) (b : bool) : GraphqlCollector E :=
  {| cachedQuerySet := cachedQuerySet c; cachedAt := cachedAt c;
     updaterIsRunning := updaterIsRunning c; updaterMu := b;
     accessMu := accessMu c; graphqlURL := graphqlURL c |}.

Definition setAccessMu (c : GraphqlCollector E) (b : bool) : GraphqlCollector E :=
  {| cachedQuerySet := cachedQuerySet c; cachedAt := cachedAt c;
     updaterIsRunning := updaterIsRunning c; updaterMu := updaterMu c;
     accessMu := b; graphqlURL := graphqlURL c |}.

Definition setUpdaterIsRunning (c : GraphqlCollector E) (b : bool) : GraphqlCollector E :=
  {| cachedQuerySet := cachedQuerySet c; cachedAt := cachedAt c;
     updaterIsRunning := b; updaterMu := updaterMu c;
     accessMu := accessMu c; graphqlURL := graphqlURL c |}.

(** Thread [i] moves to [t] and leaves the collector as [c]. *)
Definition move (m : Machine) (i : nat) (t : Thread) (c : GraphqlCollector E) : Machine :=
  {| coll := c; env := env m; threads := <[i := t]> (threads m); sink := sink m;
     starters := starters m; journal := journal m; crashed := crashed m |}.

(** [Collect], with the call of [atomicUpdate] inlined, one statement at
    a time.  [Lock] on a mutex that is held does not return: the thread
    has no step.  The [go] statement adds the goroutine as a new thread. *)
Definition stepScrape (m : Machine) (i : nat) (pc : ScrapePc) : option Machine :=
  let c := coll m in
  match pc with
  | S_lockUpdater =>
      if updaterMu c then None
      else Some (move m i (Scrape S_readFlag) (setUpdaterMu c true))
  | S_readFlag =>
      Some (move m i (Scrape (S_setFlag (negb (updaterIsRunning c)))) c)
  | S_setFlag start =>
      Some (move m i (Scrape (S_unlockUpdater start)) (setUpdaterIsRunning c true))
  | S_unlockUpdater start =>
      Some (move m i (Scrape (S_spawn start)) (setUpdaterMu c false))
  | S_spawn start =>
      if start
      then Some {| coll := c; env := env m;
                   threads := <[i := Scrape S_lockAccess]> (threads m) ++ [Refresh T_check];
                   sink := sink m; starters := starters m ++ [i];
                   journal := journal m; crashed := crashed m |}
      else Some (move m i (Scrape S_lockAccess) c)
  | S_lockAccess =>
      if accessMu c then None
      else Some (move m i (Scrape S_emit) (setAccessMu c true))
  | S_emit =>
      let '(c', out, l) := emit c in
      Some {| coll := c'; env := env m;
              threads := <[i := Scrape S_unlockAccess]> (threads m);
              sink := sink m ++ [out]; starters := starters m;
              journal := journal m ++ l; crashed := crashed m |}
  | S_unlockAccess =>
      Some (move m i (Scrape S_done) (setAccessMu c false))
  | S_done => None
  end.

(** The goroutine of [atomicUpdate]: [updateMetrics], whose result is
    dropped, then the flag is cleared under the updater mutex.  The pass
    runs with the access mutex held; the step that ends it applies
    [getMetrics] and the stamping to the collector and the world as they
    are then.  A panic in the pass ends the process. *)
Definition stepRefresh (m : Machine) (i : nat) (pc : RefreshPc) : option Machine :=
  let c := coll m in
  match pc with
  | T_check =>
      if expired cfg c (env m)
      then Some (move m i (Refresh T_lockAccess) c)
      else Some (move m i (Refresh T_lockUpdater) c)
  | T_lockAccess =>
      if accessMu c then None
      else Some (move m i (Refresh T_pass) (setAccessMu c true))
  | T_pass =>
      let '(c', w, l, ctl) := stampCache cfg c (getMetrics cfg c (env m)) in
      match ctl with
      | Panic =>
          Some {| coll := c'; env := w; threads := threads m; sink := sink m;
                  starters := starters m; journal := journal m ++ l; crashed := true |}
      | _ =>
          Some {| coll := c'; env := w;
                  threads := <[i := Refresh T_unlockAccess]> (threads m);
                  sink := sink m; starters := starters m;
                  journal := journal m ++ l; crashed := crashed m |}
      end
  | T_unlockAccess =>
      Some (move m i (Refresh T_lockUpdater) (setAccessMu c false))
  | T_lockUpdater =>
      if updaterMu c then None
      else Some (move m i (Refresh T_clearFlag) (setUpdaterMu c true))
  | T_clearFlag =>
      Some (move m i (Refresh T_unlockUpdater) (setUpdaterIsRunning c false))
  | T_unlockUpdater =>
      Some (move m i (Refresh T_done) (setUpdaterMu c false))
  | T_done => None
  end.

(** What thread [i] does next; [None] when it cannot move: it has
    returned, it waits for a mutex, or the process is gone. *)
Definition stepThread (i : nat) (m : Machine) : option Machine :=
  if crashed m then None
  else match threads m !! i with
       | Some (Scrape pc) => stepScrape m i pc
       | Some (Refresh pc) => stepRefresh m i pc
       | None => None
       end.

(** A thread moves, the clock advances, or a new scrape arrives. *)
Inductive step : Machine -> Machine -> Prop :=
| step_thread i m m' :
    stepThread i m = Some m' -> step m m'
| step_tick d m :
    0 <= d ->
    step m {| coll := coll m;
              env := {| clock := clock (env m) + d; calls := calls (env m);
                        remote := remote (env m) |};
              threads := threads m; sink := sink m; starters := starters m;
              journal := journal m; crashed := crashed m |}
| step_arrive m :
    step m {| coll := coll m; env := env m;
              threads := threads m ++ [Scrape S_lockUpdater];
              sink := sink m; starters := starters m;
              journal := journal m; crashed := crashed m |}.

(** The process after start-up with [n] scrapes arriving at once. *)
Definition initMachine (c : GraphqlCollector E) (w : World) (n : nat) : Machine :=
  {| coll := setUpdaterIsRunning (setUpdaterMu (setAccessMu c false) false) false;
     env := w;
     threads := replicate n (Scrape S_lockUpdater);
     sink := []; starters := []; journal := []; crashed := false |}.

Definition reachable (m0 m : Machine) : Prop := rtc step m0 m.

(** Running the threads named by a schedule, one step each. *)
Fixpoint runSchedule (sched : list nat) (m : Machine) : option Machine :=
  match sched with
  | [] => Some m
  | i :: rest =>
      match stepThread i m with
      | Some m' => runSchedule rest m'
      | None => None
      end
  end.

(** Counting threads. *)
Definition tally (P : Thread -> bool) (l : list Thread) : nat :=
  sum_list_with (λ t, Nat.b2n (P t)) l.

Definition count (P : Thread -> bool) (m : Machine) : nat :=
  tally P (threads m).

Definition holdsUpdaterMu (t : Thread) : bool :=
  match t with
  | Scrape (S_readFlag | S_setFlag _ | S_unlockUpdater _) => true
  | Refresh (T_clearFlag | T_unlockUpdater) => true
  | _ => false
  end.

Definition holdsAccessMu (t : Thread) : bool :=
  match t with
  | Scrape (S_emit | S_unlockAccess) => true
  | Refresh (T_pass | T_unlockAccess) => true
  | _ => false
  end.

(** A refresh goroutine that has not returned. *)
Definition liveRefresh (t : Thread) : bool :=
  match t with
  | Refresh T_done => false
  | Refresh _ => true
  | Scrape _ => false
  end.

(** A refresh goroutine that has cleared [updaterIsRunning]. *)
Definition cleared (t : Thread) : bool :=
  match t with
  | Refresh (T_unlockUpdater | T_done) => true
  | _ => false
  end.

(** A scrape that is through [atomicUpdate]. *)
Definition triggered (t : Thread) : bool :=
  match t with
  | Scrape (S_lockAccess | S_emit | S_unlockAccess | S_done) => true
  | _ => false
  end.

Definition isScrape (t : Thread) : bool :=
  match t with
  | Scrape _ => true
  | Refresh _ => false
  end.

Definition finished (t : Thread) : bool :=
  match t with
  | Scrape S_done | Refresh T_done => true
  | _ => false
  end.

Definition isRefresh (t : Thread) : bool :=
  match t with
  | Refresh _ => true
  | Scrape _ => false
  end.

(** A thread on whose account [updaterIsRunning] is set: a scrape that
    has set it and is about to start the goroutine, or a goroutine that
    has not cleared it yet. *)
Definition owesFlag (t : Thread) : bool :=
  match t with
  | Scrape (S_unlockUpdater true | S_spawn true) => true
  | Refresh (T_check | T_lockAccess | T_pass | T_unlockAccess
             | T_lockUpdater | T_clearFlag) => true
  | _ => false
  end.

(** What a thread's position says about [updaterIsRunning]: the value
    a scrape has read is the flag's negation while it holds the mutex;
    a goroutine that has just cleared the flag sees it cleared; once a
    scrape has set the flag it stays set until some goroutine clears
    it. *)
Definition agrees (flag : bool) (someCleared : Prop) (t : Thread) : Prop :=
  match t with
  | Scrape (S_setFlag start) => start = negb flag
  | Scrape (S_unlockUpdater _ | S_spawn _ | S_lockAccess | S_emit
            | S_unlockAccess | S_done) => flag = true \/ someCleared
  | Refresh T_unlockUpdater => flag = false
  | _ => True
  end.

Record Inv (m : Machine) : Prop := {
  inv_updaterMu : count holdsUpdaterMu m = Nat.b2n (updaterMu (coll m));
  inv_accessMu : count holdsAccessMu m = Nat.b2n (accessMu (coll m));
  inv_flag : count owesFlag m = Nat.b2n (updaterIsRunning (coll m));
  inv_agrees :
    Forall (agrees (updaterIsRunning (coll m)) (0 < count cleared m)%nat) (threads m);
  inv_starters : length (starters m) = count isRefresh m;
}.

End Machine.

Arguments Machine : clear implicits.

(** ** Instances used to run the collector on concrete inputs *)

Module decimal.

Definition isDigit (c : ascii) : bool :=
  let n := nat_of_ascii c in (48 <=? n)%nat && (n <=? 57)%nat.

Definition digitValue (c : ascii) : Z := Z.of_nat (nat_of_ascii c) - 48.

(** Leading digits of [s]: their value on top of [acc], how many there
    were on top of [n], and what follows them. *)
Fixpoint digits (s : string) (acc : Z) (n : nat) : Z * nat * string :=
  match s with
  | String c rest =>
      if isDigit c then digits rest (10 * acc + digitValue c) (S n) else (acc, n, s)
  | EmptyString => (acc, n, s)
  end.

Definition unsigned (s : string) : option (Z * nat) :=
  let '(i, ni, rest) := digits s 0 0%nat in
  match rest with
  | EmptyString => if (0 <? ni)%nat then Some (i, 0%nat) else None
  | String "." frac =>
      let '(m, n, rest') := digits frac i ni in
      match rest' with
      | EmptyString => if (0 <? n)%nat then Some (m, (n - ni)%nat) else None
      | _ => None
      end
  | _ => None
  end.

Definition toFloat (neg : bool) (mantissa : Z) (fraction : nat) : float64 :=
  let f := PrimFloat.of_uint63 (Uint63.of_Z mantissa) in
  let f := if neg then PrimFloat.opp f else f in
  PrimFloat.div f (PrimFloat.of_uint63 (Uint63.of_Z (10 ^ Z.of_nat fraction))).

(** A stand-in for [strconv.ParseFloat(s, 64)] on plain decimal literals,
    [[+-]digits[.digits]] with at most 15 digits: the digits are read as
    an integer and divided by the power of ten, both exact in binary64,
    which is the path Go takes for such literals.  Every other string is
    answered with a syntax error and the value 0, which is Go's answer
    for a string that is no number at all (exponents, infinities, NaN and
    longer literals are not covered). *)
Definition parse (s : string) : float64 * option NumError :=
  let '(neg, body) :=
    match s with
    | String "-" rest => (true, rest)
    | String "+" rest => (false, rest)
    | _ => (false, s)
    end in
  match unsigned body with
  | Some (m, k) =>
      if m <? 10 ^ 15 then (toFloat neg m k, None) else (0%float, Some ErrSyntax)
  | None => (0%float, Some ErrSyntax)
  end.

End decimal.

#[export] Instance decimalStrconv : Strconv := {| ParseFloat := decimal.parse |}.

Module paths.

Fixpoint splitFrom (fuel : nat) (s sep cur : string) : list string :=
  match fuel with
  | O => [cur +:+ s]
  | S fuel' =>
      match s with
      | EmptyString => [cur]
      | String c rest =>
          if String.prefix sep s
          then cur :: splitFrom fuel' (String.substring (String.length sep)
                                         (String.length s - String.length sep) s) sep ""
          else splitFrom fuel' rest sep (cur +:+ String c EmptyString)
      end
  end.

Definition split (s sep : string) : list string :=
  match sep with
  | EmptyString => [s]
  | _ => splitFrom (S (String.length s)) s sep ""
  end.

Definition contains (c : ascii) (s : string) : bool :=
  existsb (Ascii.eqb c) (list_ascii_of_string s).

(** A segment is malformed when it holds the wildcard marker without
    being the wildcard segment. *)
Definition malformed (sep path : string) : bool :=
  existsb (λ seg, contains "*" seg && negb (String.eqb seg "*")) (split path sep).

Record Extractor := {
  separator : string;
  valuePath : string;
  labelPaths : list string;
}.

(** The member a Go map would hold for [k]: the last one written. *)
Fixpoint member (k : string) (members : list (string * json.Value)) : option json.Value :=
  match members with
  | [] => None
  | (k', v) :: rest =>
      match member k rest with
      | Some v' => Some v'
      | None => if String.eqb k k' then Some v else None
      end
  end.

(** Every value the segments lead to from [v], each with the array
    positions taken at the wildcard segments on the way; a wildcard
    segment fans out over the items of an array, in array order. *)
Fixpoint resolve (segs : list string) (v : json.Value) : list (list nat * json.Value) :=
  match segs with
  | [] => [([], v)]
  | seg :: rest =>
      if String.eqb seg "*"
      then match v with
           | json.Arr items =>
               flat_map (λ iv, (λ r, (iv.1 :: r.1, r.2)) <$> resolve rest iv.2)
                        (imap (λ i item, (i, item)) items)
           | _ => []
           end
      else match v with
           | json.Obj members =>
               match member seg members with
               | Some v' => resolve rest v'
               | None => []
               end
           | _ => []
           end
  end.

(** The value a label path leads to when its wildcard segments take the
    array positions [taken], the ones the value path took. *)
Fixpoint follow (segs : list string) (taken : list nat) (v : json.Value) : option json.Value :=
  match segs with
  | [] => Some v
  | seg :: rest =>
      if String.eqb seg "*"
      then match v, taken with
           | json.Arr items, i :: taken' =>
               match items !! i with
               | Some item => follow rest taken' item
               | None => None
               end
           | _, _ => None
           end
      else match v with
           | json.Obj members =>
               match member seg members with
               | Some v' => follow rest taken v'
               | None => None
               end
           | _ => None
           end
  end.

Definition scalar (v : json.Value) : option string :=
  match v with
  | json.Str s => Some s
  | json.Num literal => Some literal
  | json.Bool true => Some "true"
  | json.Bool false => Some "false"
  | _ => None
  end.

Definition labelValue (sep : string) (root : json.Value) (taken : list nat) (path : string)
    : string :=
  default "" (follow (split path sep) taken root ≫= scalar).

Definition sortPaths (l : list string) : list string :=
  merge_sort (λ a b, Is_true (String.leb a b)) l.

(** Modelled from the spec: the path extractor (§4.1), whose file is not
    among the sources.  [compile(separator, valuePath, labelPaths)] fails
    on a malformed path expression; the label paths are kept in
    lexicographic order; extraction walks the value path from the root,
    fans out at a wildcard segment over an array, yields nothing where a
    segment is absent or the final value is no scalar, and gives a label
    that does not resolve the empty string.  A label path is resolved in
    the array-element context the value path's wildcard has bound. *)
Definition compile (sep value : string) (labels : list string)
    : option Extractor * option string :=
  if existsb (malformed sep) (value :: labels)
  then (Some {| separator := sep; valuePath := ""; labelPaths := [] |},
        Some "malformed path expression")
  else (Some {| separator := sep; valuePath := value; labelPaths := sortPaths labels |},
        None).

(** Modelled from the spec: [Extractor.extract(root, emit)] (§4.1), as the
    sequence of pairs handed to [emit]: one per scalar the value path
    resolves to, in array order, with one label value per sorted label
    path. *)
Definition extract (e : Extractor) (data : gmap string json.Value)
    : list (string * list string) :=
  let root := json.Obj (map_to_list data) in
  omap (λ r, s ← scalar r.2;
             Some (s, labelValue (separator e) root r.1 <$> labelPaths e))
       (resolve (split (valuePath e) (separator e)) root).

End paths.

#[export] Instance pathExtractor : ExtractorAPI paths.Extractor := {|
  NewExtractor := paths.compile;
  GetSortedPaths := paths.labelPaths;
  ExtractMetrics := paths.extract;
|}.


(** ** Vocabulary of the properties *)

Definition isHistogramVec (c : prom.Collector) : bool :=
  match c with
  | prom.HistogramVec _ _ _ => true
  | _ => false
  end.

Definition isGaugeVec (c : prom.Collector) : bool :=
  match c with
  | prom.GaugeVec _ _ _ => true
  | _ => false
  end.

(** A top-level object without a member that names the field [Data]. *)
Definition noDataMember (members : list (string * json.Value)) : Prop :=
  Forall (λ kv, json.matchesField "Data" kv.1 = false) members.

(** The map an object leaves in a [Data] field that held [d]. *)
Definition mergeInto (d : gmap string json.Value) (members : list (string * json.Value))
    : gmap string json.Value :=
  foldl (λ m kv, <[kv.1 := kv.2]> m) d members.

(** What a scrape leaves of a collector it has read. *)
Definition afterScrape (c : prom.Collector) : prom.Collector :=
  match c with
  | prom.HistogramVec o names _ => prom.HistogramVec o names ∅
  | _ => c
  end.

(** [c'] is [c] with, at most, more observations in its histogram
    children: no child is missing, none has lost an observation. *)
Definition keepsObservations (c c' : prom.Collector) : Prop :=
  match c, c' with
  | prom.HistogramVec _ _ children, prom.HistogramVec _ _ children' =>
      forall labels observed,
        children !! labels = Some observed ->
        exists more, children' !! labels = Some (observed ++ more)
  | prom.HistogramVec _ _ _, _ => False
  | _, _ => True
  end.

Section Vocabulary.

Context {E : Type}.

(** The error a query meets in state [s], if any: the transport's, or
    the decoder's on the bytes received. *)
Definition queryFailure (q : QuerySet E) (s : PassState) : option error :=
  match (GraphqlQuery (Query q) (world s)).1 with
  | QueryError msg => Some (TransportError msg)
  | QueryOk body =>
      match (Unmarshal body (gql s)).2 with
      | Some e => Some (DecodeError e)
      | None => None
      end
  end.

Definition failureLine (e : error) : Event :=
  match e with
  | TransportError msg => LogQueryError msg
  | DecodeError e' => LogUnmarshalError e'
  end.

Definition withMetrics (q : QuerySet E) (ms : list (Metric E)) : QuerySet E :=
  {| Query := Query q; Metrics := ms |}.

Definition withCollector (m : Metric E) (c : prom.Collector) : Metric E :=
  {| Collector := c; Config := Config m; Extractor := Extractor m |}.

Definition collectorsOf (qs : list (QuerySet E)) : list prom.Collector :=
  q ← qs; Collector <$> Metrics q.

Definition mapCollectors (f : prom.Collector -> prom.Collector) (qs : list (QuerySet E))
    : list (QuerySet E) :=
  (λ q, withMetrics q ((λ m, withCollector m (f (Collector m))) <$> Metrics q)) <$> qs.

End Vocabulary.

(** ** Fixtures: small configurations, collectors and worlds *)

Module fixtures.

Definition opts (name : string) : prom.Opts.t :=
  {| prom.Opts.Namespace := "gql"; prom.Opts.Subsystem := "shop";
     prom.Opts.Name := name; prom.Opts.Help := "" |}.

Definition histogramOpts (name : string) : prom.HistogramOpts.t :=
  {| prom.HistogramOpts.Namespace := "gql"; prom.HistogramOpts.Subsystem := "shop";
     prom.HistogramOpts.Name := name; prom.HistogramOpts.Help := "";
     prom.HistogramOpts.Buckets := latencyHistogramBuckets |}.

(** A gauge whose child for the tuple [["eu"]] holds 5, and a histogram
    whose child for that tuple has observed 2. *)
Definition gauge5 : prom.Collector :=
  prom.GaugeVec (opts "stock") ["region"] {[ ["eu"] := 5%float ]}.

Definition histogram2 : prom.Collector :=
  prom.HistogramVec (histogramOpts "latency") ["region"] {[ ["eu"] := [2%float] ]}.

Definition metric (type name value : string) (labels : list string) : config.Metric :=
  {| config.Description := ""; config.MetricType := type; config.Placeholder := "";
     config.Labels := labels; config.Value := value; config.Name := name |}.

Definition cfgOf (failFast extend : bool) (queries : list config.Query) : config.Cfg :=
  {| config.MetricsPrefix := "gql"; config.GraphqlURL := "http://backend/graphql";
     config.GraphqlAPIToken := ""; config.CacheExpire := 10; config.QueryTimeout := 60;
     config.FailFast := failFast; config.ExtendCacheOnError := extend;
     config.LabelPathSeparator := "."; config.Queries := queries |}.

(** One query with one metric declared as a counter. *)
Definition counterCfg : config.Cfg :=
  cfgOf false false
    [{| config.query := "{ orders { total } }"; config.Subsystem := "shop";
        config.Metrics := [metric "counter" "orders_total" "orders.total" []] |}].

(** One query with two metrics; the value path of the first one holds a
    wildcard marker that is not a segment of its own. *)
Definition malformedCfg : config.Cfg :=
  cfgOf false false
    [{| config.query := "{ items { price } }"; config.Subsystem := "shop";
        config.Metrics := [metric "" "broken" "items.*price" ["items.name"];
                           metric "" "price" "items.*.price" ["items.*.name"]] |}].

(** A backend that answers every query with an error after 30 seconds;
    the clock shows 1000. *)
Definition failingWorld : World :=
  {| clock := 1000; calls := 0;
     remote := λ _ _, {| elapsed := 30; result := QueryError "context deadline exceeded" |} |}.

(** Compiled query sets with one gauge each, as start-up leaves them. *)
Definition gaugeQuery (text name path : string) : QuerySet paths.Extractor :=
  {| Query := text;
     Metrics := [{| Collector := prom.GaugeVec (opts name) [] ∅;
                    Config := metric "" name path [];
                    Extractor := {| paths.separator := "."; paths.valuePath := path;
                                    paths.labelPaths := [] |} |}] |}.

Definition stockQuery : QuerySet paths.Extractor := gaugeQuery "{ stock }" "stock" "stock".
Definition ordersQuery : QuerySet paths.Extractor := gaugeQuery "{ orders }" "orders" "orders".
Definition usersQuery : QuerySet paths.Extractor := gaugeQuery "{ users }" "users" "users".

Definition collectorOf (qs : list (QuerySet paths.Extractor)) (at_ : Z)
    : GraphqlCollector paths.Extractor :=
  {| cachedQuerySet := qs; cachedAt := at_; updaterIsRunning := false;
     updaterMu := false; accessMu := false; graphqlURL := "http://backend/graphql" |}.

Definition respond (seconds : Z) (j : json.Value) : Reply :=
  {| elapsed := seconds; result := QueryOk (Document j) |}.

Definition timeout : Reply :=
  {| elapsed := 30; result := QueryError "context deadline exceeded" |}.

(** The first call is answered with [{"data": {"stock": 7}}] after one
    second, every later one times out. *)
Definition flakyWorld : World :=
  {| clock := 1000; calls := 0;
     remote := λ n _, match n with
                      | O => respond 1 (json.Obj [("data", json.Obj [("stock", json.Num "7")])])
                      | S _ => timeout
                      end |}.

Definition startOfPass (w : World) : PassState :=
  {| gql := None; world := w; logged := [] |}.

(** The first call is answered with [{"data": {"stock": 7}}], every
    later one with [{"errors": ["boom"]}]. *)
Definition errorsOnlyWorld : World :=
  {| clock := 1000; calls := 0;
     remote := λ n _, match n with
                      | O => respond 1 (json.Obj [("data", json.Obj [("stock", json.Num "7")])])
                      | S _ => respond 1 (json.Obj [("errors", json.Arr [json.Str "boom"])])
                      end |}.

(** A second query set whose gauge reads the path the first query's
    response binds. *)
Definition shadowQuery : QuerySet paths.Extractor := gaugeQuery "{ orders }" "shadow" "stock".

(** The process with the stock query compiled, a stale cache, and
    [n] scrapes arriving at once. *)
Definition boot (n : nat) : Machine paths.Extractor :=
  initMachine (collectorOf [stockQuery] 0) flakyWorld n.

(** Five steps take a scrape through [atomicUpdate]. *)
Definition trigger (i : nat) : list nat := replicate 5 i.

(** Three scrapes, each through [atomicUpdate] in turn; the first one
    starts the goroutine, which becomes thread 3. *)
Definition afterTriggers : Machine paths.Extractor :=
  default (boot 3)
    (runSchedule (cfgOf false false []) (trigger 0 ++ trigger 1 ++ trigger 2) (boot 3)).

(** One scrape triggers the refresh; the goroutine (thread 1) finds the
    cache stale and takes the access mutex: the pass is in progress
    while the scrape is about to emit. *)
Definition duringPass : Machine paths.Extractor :=
  default (boot 1)
    (runSchedule (cfgOf false false []) (trigger 0 ++ [1; 1]%nat) (boot 1)).

End fixtures.

(** ** Reading the configuration: [Init] of internal/config and pkg/config *)

(** What [os.ReadFile] returns. *)
Inductive ReadResult :=
| ReadError (msg : string)
| ReadOk (content : string).

(** What [Init] asks of the operating system: whether the error of
    [os.Stat(path)] satisfies [os.IsNotExist], what [os.ReadFile(path)]
    returns, and [os.LookupEnv]. *)
Record OS := {
  statNotExist : string -> bool;
  readFile : string -> ReadResult;
  lookupEnv : string -> option string;
}.

Module internal_config.

(** [yaml.Unmarshal(content, &Config)] for the global [Config : *Cfg]:
    the pointer afterwards (it may have been written to before an error is
    reported) and the error. *)
Class YamlDecoder := {
  yamlUnmarshal : string -> option config.Cfg -> option config.Cfg * option string;
}.

(** The package variables. *)
Record Globals := {
  Config : option config.Cfg;
  ConfigPath : string;
}.

Definition withToken (c : config.Cfg) (val : string) : config.Cfg :=
  {| config.MetricsPrefix := config.MetricsPrefix c;
     config.GraphqlURL := config.GraphqlURL c;
     config.GraphqlAPIToken := val;
     config.CacheExpire := config.CacheExpire c;
     config.QueryTimeout := config.QueryTimeout c;
     config.FailFast := config.FailFast c;
     config.ExtendCacheOnError := config.ExtendCacheOnError c;
     config.LabelPathSeparator := config.LabelPathSeparator c;
     config.Queries := config.Queries c |}.

Definition withQueryTimeout (c : config.Cfg) (t : Z) : config.Cfg :=
  {| config.MetricsPrefix := config.MetricsPrefix c;
     config.GraphqlURL := config.GraphqlURL c;
     config.GraphqlAPIToken := config.GraphqlAPIToken c;
     config.CacheExpire := config.CacheExpire c;
     config.QueryTimeout := t;
     config.FailFast := config.FailFast c;
     config.ExtendCacheOnError := config.ExtendCacheOnError c;
     config.LabelPathSeparator := config.LabelPathSeparator c;
     config.Queries := config.Queries c |}.

(** The bytes [Init] decodes: [{}] when [os.Stat] says the file does not
    exist, otherwise what [os.ReadFile] returns, an empty file counting
    as [{}]; or the error of [os.ReadFile]. *)
Definition readContent (os : OS) (path : string) : ReadResult :=
  if negb (statNotExist os path)
  then match readFile os path with
       | ReadError e => ReadError e
       | ReadOk content => ReadOk (if (String.length content =? 0)%nat then "{}" else content)
       end
  else ReadOk "{}".

(** [Init(configPath)]: the package variables afterwards, the returned
    error ([None] is nil), and the lines logged.  Assigning to a field
    through a nil [Config] panics. *)
Definition Init `{YamlDecoder} (os : OS) (g : Globals) (configPath : string)
    : Globals * Run (option string) * list string :=
  match readContent os configPath with
  | ReadError e => ({| Config := Config g; ConfigPath := configPath |}, Returns (Some e), [])
  | ReadOk content =>
      let '(decoded, err) := yamlUnmarshal content (Config g) in
      match err with
      | Some e => ({| Config := decoded; ConfigPath := configPath |}, Returns (Some e), [])
      | None =>
          match decoded with
          | None => ({| Config := None; ConfigPath := configPath |}, Panics, [])
          | Some c =>
              let c1 := match lookupEnv os "GRAPHQLAPITOKEN" with
                        | Some val => withToken c val
                        | None => c
                        end in
              let c2 := if config.QueryTimeout c1 =? 0 then withQueryTimeout c1 60 else c1 in
              ({| Config := Some c2; ConfigPath := configPath |}, Returns None,
               ["Finished reading config from " +:+ configPath])
          end
      end
  end.

End internal_config.

Module pkg_config.

Record Metric := {
  Description : string;
  Placeholder : string;
  Labels : list string;
  Value : string;
}.

(** The query text is the field [Query] of the struct [Query]. *)
Record Query := {
  query : string;
  Metrics : list Metric;
}.

Record Cfg := {
  GraphqlURL : string;
  GraphqlAPIToken : string;
  Queries : list Query;
}.

(** [json.Unmarshal(content, &Config)] for the global [Config : *Cfg]. *)
Class JsonDecoder := {
  jsonUnmarshal : string -> option Cfg -> option Cfg * option string;
}.

Record Globals := {
  Config : option Cfg;
  ConfigPath : string;
}.

(** [Init(configPath)] of pkg/config: as above, without the environment
    override and the default. *)
Definition Init `{JsonDecoder} (os : OS) (g : Globals) (configPath : string)
    : Globals * option string * list string :=
  match internal_config.readContent os configPath with
  | ReadError e => ({| Config := Config g; ConfigPath := configPath |}, Some e, [])
  | ReadOk content =>
      let '(decoded, err) := jsonUnmarshal content (Config g) in
      match err with
      | Some e => ({| Config := decoded; ConfigPath := configPath |}, Some e, [])
      | None => ({| Config := decoded; ConfigPath := configPath |}, None,
                 ["Finished reading config."])
      end
  end.

End pkg_config.

(** ** Further vocabulary *)


(** The queries sent, in the order of the log. *)
Definition queriesSent (l : list Event) : list string :=
  omap (λ e, match e with Queried q => Some q | _ => None end) l.

(** Two collectors of the same type, with the same options and label
    names; their children may differ. *)
Definition sameKind (c c' : prom.Collector) : Prop :=
  match c, c' with
  | prom.HistogramVec o names _, prom.HistogramVec o' names' _ => o = o' /\ names = names'
  | prom.GaugeVec o names _, prom.GaugeVec o' names' _ => o = o' /\ names = names'
  | prom.CounterVec o names _, prom.CounterVec o' names' _ => o = o' /\ names = names'
  | prom.OtherCollector, prom.OtherCollector => True
  | _, _ => False
  end.

Fixpoint hasChar (c : ascii) (s : string) : bool :=
  match s with
  | EmptyString => false
  | String a rest => Ascii.eqb c a || hasChar c rest
  end.

(** The label names and the name a collector was built with. *)
Definition labelNamesOf (c : prom.Collector) : list string :=
  match c with
  | prom.HistogramVec _ names _ | prom.GaugeVec _ names _ | prom.CounterVec _ names _ => names
  | prom.OtherCollector => []
  end.

Definition nameOf (c : prom.Collector) : string :=
  match c with
  | prom.HistogramVec o _ _ => prom.HistogramOpts.Name o
  | prom.GaugeVec o _ _ | prom.CounterVec o _ _ => prom.Opts.Name o
  | prom.OtherCollector => ""
  end.

Section FurtherVocabulary.

Context {E : Type}.

Definition sameMetric (m m' : Metric E) : Prop :=
  Config m = Config m' /\ Extractor m = Extractor m'
  /\ sameKind (Collector m) (Collector m').

Definition sameQuerySet (q q' : QuerySet E) : Prop :=
  Query q = Query q' /\ Forall2 sameMetric (Metrics q) (Metrics q').

(** The cache is not stamped in the future, and no exchange with the
    backend takes negative time. *)
Definition wellTimed (m : Machine E) : Prop :=
  cachedAt (coll m) <= clock (env m)
  /\ forall n q, 0 <= elapsed (remote (env m) n q).

End FurtherVocabulary.

(** The configuration with another [ExtendCacheOnError]. *)
Definition withExtendCacheOnError (c : config.Cfg) (b : bool) : config.Cfg :=
  {| config.MetricsPrefix := config.MetricsPrefix c;
     config.GraphqlURL := config.GraphqlURL c;
     config.GraphqlAPIToken := config.GraphqlAPIToken c;
     config.CacheExpire := config.CacheExpire c;
     config.QueryTimeout := config.QueryTimeout c;
     config.FailFast := config.FailFast c;
     config.ExtendCacheOnError := b;
     config.LabelPathSeparator := config.LabelPathSeparator c;
     config.Queries := config.Queries c |}.

(** ** Decoders used to run [Init] on concrete inputs *)

Module decoders.

Definition zeroCfg : config.Cfg :=
  {| config.MetricsPrefix := ""; config.GraphqlURL := ""; config.GraphqlAPIToken := "";
     config.CacheExpire := 0; config.QueryTimeout := 0; config.FailFast := false;
     config.ExtendCacheOnError := false; config.LabelPathSeparator := "";
     config.Queries := [] |}.

(** A stand-in for [yaml.Unmarshal] on three documents: [{}], which
    writes nothing, and two one-line documents that set one field each;
    the struct is allocated when the pointer is nil.  Any other text is
    answered with an error. *)
Definition yaml (content : string) (p : option config.Cfg)
    : option config.Cfg * option string :=
  let c := default zeroCfg p in
  if String.eqb content "{}" then (Some c, None)
  else if String.eqb content "queryTimeout: 30"
       then (Some (internal_config.withQueryTimeout c 30), None)
  else if String.eqb content "graphqlAPIToken: from-file"
       then (Some (internal_config.withToken c "from-file"), None)
  else (p, Some "yaml: unmarshal errors").

Definition zeroPkgCfg : pkg_config.Cfg :=
  {| pkg_config.GraphqlURL := ""; pkg_config.GraphqlAPIToken := "";
     pkg_config.Queries := [] |}.

(** A stand-in for [json.Unmarshal] on the document [{}]. *)
Definition jsonCfg (content : string) (p : option pkg_config.Cfg)
    : option pkg_config.Cfg * option string :=
  if String.eqb content "{}" then (Some (default zeroPkgCfg p), None)
  else (p, Some "invalid character").

(** No file at any path, or one file with the given content. *)
Definition noFile (env : string -> option string) : OS :=
  {| statNotExist := λ _, true; readFile := λ _, ReadError "no such file or directory";
     lookupEnv := env |}.

Definition oneFile (content : string) (env : string -> option string) : OS :=
  {| statNotExist := λ _, false; readFile := λ _, ReadOk content; lookupEnv := env |}.

(** A file that is there and cannot be read. *)
Definition unreadable (env : string -> option string) : OS :=
  {| statNotExist := λ _, false; readFile := λ _, ReadError "permission denied";
     lookupEnv := env |}.

Definition tokenEnv : string -> option string :=
  λ name, if String.eqb name "GRAPHQLAPITOKEN" then Some "from-env" else None.

End decoders.

#[export] Instance sampleYaml : internal_config.YamlDecoder :=
  {| internal_config.yamlUnmarshal := decoders.yaml |}.

#[export] Instance sampleJsonCfg : pkg_config.JsonDecoder :=
  {| pkg_config.jsonUnmarshal := decoders.jsonCfg |}.

(** ** Runs of the process used below *)

Module runs.

(** One scrape and the refresh it starts, each run to its end: the
    goroutine first, then the scrape. *)
Definition afterRefresh : Machine paths.Extractor :=
  default (fixtures.boot 1)
    (runSchedule (fixtures.cfgOf false false [])
       (fixtures.trigger 0 ++ replicate 7 1%nat ++ replicate 3 0%nat) (fixtures.boot 1)).

End runs.

Module replies.

(** A backend whose every answer is the JSON text [null]. *)
Definition nullWorld : World :=
  {| clock := 1000; calls := 0;
     remote := λ _ _, {| elapsed := 1; result := QueryOk (Document json.Null) |} |}.

(** The stock gauge holding 7, last refreshed at 1000. *)
Definition refreshed : GraphqlCollector paths.Extractor :=
  fixtures.collectorOf
    [{| Query := "{ stock }";
        Metrics := [{| Collector := prom.GaugeVec (fixtures.opts "stock") [] {[ [] := 7%float ]};
                       Config := fixtures.metric "" "stock" "stock" [];
                       Extractor := {| paths.separator := "."; paths.valuePath := "stock";
                                       paths.labelPaths := [] |} |}] |}]
    1000.

Definition at_ (now : Z) : World :=
  {| clock := now; calls := 1; remote := remote fixtures.flakyWorld |}.

End replies.

(** * Properties *)

(** ** Value coercion *)

Section CoercionFacts.

Context `{Strconv}.



End CoercionFacts.



(** C1: when [ParseFloat] returns an error for a non-empty value, the
    callback logs it and goes on to apply the value returned next to the
    error: the gauge child for the tuple is set to it, the histogram child
    observes it.  The sample is not dropped. *)
Theorem parse_failure_still_applied
    (P : Strconv) (value : string) (labels : list string) (f : float64) (e : NumError) :
  value <> "" ->
  ParseFloat value = (f, Some e) ->
  (forall o names children,
      callbackFunc (prom.GaugeVec o names children) value labels
      = (prom.GaugeVec o names (<[labels := f]> children), [LogConvertFail value]))
  /\ (forall o names children,
      callbackFunc (prom.HistogramVec o names children) value labels
      = (prom.HistogramVec o names
           (<[labels := default [] (children !! labels) ++ [f]]> children),
         [LogConvertFail value])).
Proof.
  intros Hne Hparse. apply String.eqb_neq in Hne.
  split; intros o names children; unfold callbackFunc; rewrite Hne, Hparse; reflexivity.
Qed.

(** On the gauge holding 5 for the tuple, ["abc"] leaves 0; the histogram
    that had observed 2 has observed 0 as well. *)
Lemma unparsable_sample_is_applied :
  decimal.parse "abc" = (0%float, Some ErrSyntax)
  /\ callbackFunc fixtures.gauge5 "abc" ["eu"]
     = (prom.GaugeVec (fixtures.opts "stock") ["region"] {[ ["eu"] := 0%float ]},
        [LogConvertFail "abc"])
  /\ callbackFunc fixtures.histogram2 "abc" ["eu"]
     = (prom.HistogramVec (fixtures.histogramOpts "latency") ["region"]
          {[ ["eu"] := [2%float; 0%float] ]},
        [LogConvertFail "abc"])
  /\ (callbackFunc fixtures.gauge5 "abc" ["eu"]).1 <> fixtures.gauge5
  /\ (callbackFunc fixtures.histogram2 "abc" ["eu"]).1 <> fixtures.histogram2.
Proof.
  destruct (parse_failure_still_applied decimalStrconv "abc" ["eu"] 0%float ErrSyntax)
    as [Hgauge Hhistogram]; [discriminate | vm_compute; reflexivity |].
  unfold fixtures.gauge5, fixtures.histogram2. rewrite Hgauge, Hhistogram.
  split; [vm_compute; reflexivity|].
  split; [vm_compute; reflexivity|].
  split; [vm_compute; reflexivity|].
  split; intros Heq.
  - apply (f_equal (λ c, match c with
                         | prom.GaugeVec _ _ ch =>
                             match ch !! ["eu"] with
                             | Some f => PrimFloat.ltb 0 f
                             | None => false
                             end
                         | _ => false
                         end)) in Heq.
    vm_compute in Heq. discriminate.
  - apply (f_equal (λ c, match c with
                         | prom.HistogramVec _ _ ch =>
                             match ch !! ["eu"] with
                             | Some obs => length obs
                             | None => O
                             end
                         | _ => O
                         end)) in Heq.
    vm_compute in Heq. discriminate.
Defined.

(** ** Compiling the configuration *)

Lemma mapM_Returns {A B} (f : A -> Run B) (l : list A) (out : list B) :
  mapM f l = Returns out <-> Forall2 (λ a b, f a = Returns b) l out.
Proof.
  revert out. induction l as [|a l IH]; intros out; simpl.
  - split.
    + intros [= <-]. constructor.
    + intros Hall. inversion Hall. reflexivity.
  - split.
    + unfold mbind, Run_bind at 1. destruct (f a) as [b|] eqn:Hfa; [|discriminate].
      unfold Run_bind at 1.
      destruct (mapM f l) as [bs|] eqn:Hrest; [|discriminate].
      intros [= <-]. constructor; [exact Hfa | apply IH; reflexivity].
    + intros Hall. inversion Hall as [|? b ? bs Hfa Hrest]; subst.
      apply IH in Hrest. unfold mbind, Run_bind at 1. rewrite Hfa.
      unfold Run_bind at 1. rewrite Hrest. reflexivity.
Qed.

Lemma mapM_Panics {A B} (f : A -> Run B) (l : list A) (a : A) :
  a ∈ l -> f a = Panics -> mapM f l = Panics.
Proof.
  intros Hin Hfa. induction l as [|b l IH]; [inversion Hin|].
  simpl. unfold mbind, Run_bind at 1.
  destruct (f b) as [y|] eqn:Hfb; [|reflexivity].
  apply elem_of_cons in Hin as [->|Hin]; [congruence|].
  rewrite (IH Hin). reflexivity.
Qed.

Section CompilerFacts.

Context `{Strconv} {E : Type} `{ExtractorAPI E}.
Variable cfg : config.Cfg.

(** The [switch] has a histogram case and a default: whatever else the
    type says, the collector is a gauge. *)
Lemma newCollector_kind q m name labels :
  newCollector cfg q m name labels
  = if String.eqb (config.MetricType m) "histogram"
    then prom.HistogramVec
           {| prom.HistogramOpts.Namespace := config.MetricsPrefix cfg;
              prom.HistogramOpts.Subsystem := config.Subsystem q;
              prom.HistogramOpts.Name := name;
              prom.HistogramOpts.Help := config.Description m;
              prom.HistogramOpts.Buckets := latencyHistogramBuckets |} labels ∅
    else prom.GaugeVec
           {| prom.Opts.Namespace := config.MetricsPrefix cfg;
              prom.Opts.Subsystem := config.Subsystem q;
              prom.Opts.Name := name;
              prom.Opts.Help := config.Description m |} labels ∅.
Proof. reflexivity. Qed.

Lemma newCollector_never_counter q m name labels o names children :
  newCollector cfg q m name labels <> prom.CounterVec o names children.
Proof.
  rewrite newCollector_kind. destruct (String.eqb _ _); discriminate.
Qed.

Lemma newMetric_Returns q m cm l :
  newMetric cfg q m = Returns (cm, l) ->
  Config cm = m
  /\ Collector cm
     = newCollector cfg q m (metricName cfg m) (labelName <$> GetSortedPaths (Extractor cm))
  /\ (NewExtractor (config.LabelPathSeparator cfg) (config.Value m) (config.Labels m)).1
     = Some (Extractor cm).
Proof.
  unfold newMetric.
  destruct (NewExtractor _ _ _) as [[ex|] err]; [|discriminate].
  intros [= <- <-]. repeat split.
Qed.

Lemma newQuerySet_Returns q qs l :
  newQuerySet cfg q = Returns (qs, l) ->
  Query qs = config.query q /\ Config <$> Metrics qs = config.Metrics q.
Proof.
  unfold newQuerySet, mbind, Run_bind.
  destruct (mapM (newMetric cfg q) (config.Metrics q)) as [ms|] eqn:Hms; [|discriminate].
  intros [= <- <-]. split; [reflexivity|]. simpl.
  apply mapM_Returns in Hms.
  induction Hms as [|m [cm lm] ms' out Hm Hrest IH]; [reflexivity|].
  simpl. apply newMetric_Returns in Hm as [-> _]. f_equal. exact IH.
Qed.

(** When start-up returns, every configured metric of every query has
    been compiled and kept, in order: none is skipped, whether or not
    [NewExtractor] reported an error for it. *)
Lemma compiled_metrics_all_kept c l :
  newGraphqlCollector cfg = Returns (c, l) ->
  (λ qs, Config <$> Metrics qs) <$> cachedQuerySet c
  = config.Metrics <$> config.Queries cfg.
Proof.
  unfold newGraphqlCollector, mbind, Run_bind.
  destruct (mapM (newQuerySet cfg) (config.Queries cfg)) as [qs|] eqn:Hqs; [|discriminate].
  intros [= <- <-]. simpl.
  apply mapM_Returns in Hqs.
  induction Hqs as [|q [cq lq] qs' out Hq Hrest IH]; [reflexivity|].
  simpl. apply newQuerySet_Returns in Hq as [_ ->]. f_equal. exact IH.
Qed.

(** A metric for which [NewExtractor] hands back no extractor ends
    start-up with a panic. *)
Lemma nil_extractor_is_fatal q m err :
  q ∈ config.Queries cfg ->
  m ∈ config.Metrics q ->
  NewExtractor (config.LabelPathSeparator cfg) (config.Value m) (config.Labels m)
  = (None, err) ->
  newGraphqlCollector cfg = Panics.
Proof.
  intros Hq Hm Hnew. unfold newGraphqlCollector, mbind, Run_bind.
  rewrite (mapM_Panics (newQuerySet cfg) _ q Hq); [reflexivity|].
  unfold newQuerySet, mbind, Run_bind.
  rewrite (mapM_Panics (newMetric cfg q) _ m Hm); [reflexivity|].
  unfold newMetric. rewrite Hnew. reflexivity.
Qed.

Lemma elem_of_concat {A} (x : A) (ls : list (list A)) (l : list A) :
  l ∈ ls -> x ∈ l -> x ∈ concat ls.
Proof.
  rewrite !list_elem_of_In. intros Hl Hx. apply in_concat. exists l. split; assumption.
Qed.

Lemma mapM_Returns_elem {A B} (f : A -> Run B) (l : list A) (out : list B) (a : A) :
  mapM f l = Returns out -> a ∈ l -> exists b, b ∈ out /\ f a = Returns b.
Proof.
  intros Hall Hin. apply mapM_Returns in Hall.
  induction Hall as [|a' b l' out' Hfa _ IH]; [inversion Hin|].
  apply elem_of_cons in Hin as [->|Hin].
  - exists b. split; [apply list_elem_of_here|exact Hfa].
  - destruct (IH Hin) as (b' & Hb' & Hfb). exists b'.
    split; [apply list_elem_of_further; exact Hb'|exact Hfb].
Qed.

(** The error [NewExtractor] reports for a metric is in the log of a
    start-up that returns. *)
Lemma newGraphqlCollector_log c l q m e :
  newGraphqlCollector cfg = Returns (c, l) ->
  q ∈ config.Queries cfg ->
  m ∈ config.Metrics q ->
  (NewExtractor (config.LabelPathSeparator cfg) (config.Value m) (config.Labels m)).2
  = Some e ->
  LogLabelsDefinition (config.Name m) e ∈ l.
Proof.
  unfold newGraphqlCollector, mbind, Run_bind.
  destruct (mapM (newQuerySet cfg) (config.Queries cfg)) as [qs|] eqn:Hqs; [|discriminate].
  intros [= <- <-] Hq Hm Herr.
  destruct (mapM_Returns_elem _ _ _ q Hqs Hq) as ([cq lq] & Hcq & Hnq).
  unfold newQuerySet, mbind, Run_bind in Hnq.
  destruct (mapM (newMetric cfg q) (config.Metrics q)) as [ms|] eqn:Hms; [|discriminate].
  injection Hnq as <- <-.
  destruct (mapM_Returns_elem _ _ _ m Hms Hm) as ([cm lm] & Hcm & Hnm).
  simpl. apply (elem_of_concat _ _ (concat ms.*2)).
  - apply (list_elem_of_fmap_2 snd _ _ Hcq).
  - apply (elem_of_concat _ _ lm).
    + apply (list_elem_of_fmap_2 snd _ _ Hcm).
    + unfold newMetric in Hnm. destruct (NewExtractor _ _ _) as [[ex|] err]; [|discriminate].
      simpl in Herr. subst err. injection Hnm as <- <-. apply list_elem_of_here.
Qed.

(** What holds of every collector the switch can build holds of every
    compiled collector. *)
Lemma compiled_collectors_Forall (P : prom.Collector -> Prop) c l :
  (forall q m name labels, P (newCollector cfg q m name labels)) ->
  newGraphqlCollector cfg = Returns (c, l) ->
  Forall P (collectorsOf (cachedQuerySet c)).
Proof.
  intros HP. unfold newGraphqlCollector, mbind, Run_bind.
  destruct (mapM (newQuerySet cfg) (config.Queries cfg)) as [qs|] eqn:Hqs; [|discriminate].
  intros [= <- <-]. simpl. unfold collectorsOf.
  apply Forall_bind, Forall_fmap.
  apply mapM_Returns in Hqs.
  induction Hqs as [|q [cq lq] qs' out Hq Hrest IH]; [constructor|].
  constructor; [|exact IH]. clear IH Hrest. simpl.
  unfold newQuerySet, mbind, Run_bind in Hq.
  destruct (mapM (newMetric cfg q) (config.Metrics q)) as [ms|] eqn:Hms; [|discriminate].
  injection Hq as <- <-. simpl.
  apply Forall_fmap, Forall_fmap.
  apply mapM_Returns in Hms.
  induction Hms as [|m [cm lm] ms' out' Hm Hrest IH]; [constructor|].
  constructor; [|exact IH]. simpl.
  apply newMetric_Returns in Hm as (_ & -> & _). apply HP.
Qed.

(** No compiled collector is a counter. *)
Lemma compiled_collectors_kinds c l :
  newGraphqlCollector cfg = Returns (c, l) ->
  Forall (λ x, isHistogramVec x || isGaugeVec x = true) (collectorsOf (cachedQuerySet c)).
Proof.
  apply compiled_collectors_Forall. intros q m name labels.
  rewrite newCollector_kind. destruct (String.eqb _ _); reflexivity.
Qed.

(** Before any refresh, no compiled collector has a child. *)
Lemma compiled_collectors_empty c l :
  newGraphqlCollector cfg = Returns (c, l) ->
  Forall (λ x, prom.Collect x = []) (collectorsOf (cachedQuerySet c)).
Proof.
  apply compiled_collectors_Forall. intros q m name labels.
  rewrite newCollector_kind.
  destruct (String.eqb _ _); simpl; rewrite map_to_list_empty; reflexivity.
Qed.

End CompilerFacts.

(** C2: the compiler builds a histogram vector with the shared bucket list
    for the declared type ["histogram"] and a gauge vector for every other
    declared type, ["counter"] included (the switch has no counter case):
    no compiled collector is a counter vector.  So a metric declared as a
    counter is set, not added to: two samples of 3 leave its child at 3. *)
Theorem declared_counter_becomes_gauge
    (cfg : config.Cfg) (q : config.Query) (m : config.Metric)
    (name : string) (labels : list string) :
  newCollector cfg q m name labels
  = (if String.eqb (config.MetricType m) "histogram"
     then prom.HistogramVec
            {| prom.HistogramOpts.Namespace := config.MetricsPrefix cfg;
               prom.HistogramOpts.Subsystem := config.Subsystem q;
               prom.HistogramOpts.Name := name;
               prom.HistogramOpts.Help := config.Description m;
               prom.HistogramOpts.Buckets := latencyHistogramBuckets |} labels ∅
     else prom.GaugeVec
            {| prom.Opts.Namespace := config.MetricsPrefix cfg;
               prom.Opts.Subsystem := config.Subsystem q;
               prom.Opts.Name := name;
               prom.Opts.Help := config.Description m |} labels ∅)
  /\ isGaugeVec (newCollector cfg q (fixtures.metric "counter" "" "" []) name labels) = true
  /\ (forall o names children,
         newCollector cfg q m name labels <> prom.CounterVec o names children)
  /\ (exists c, newGraphqlCollector fixtures.counterCfg = Returns (c, [])
                /\ collectorsOf (cachedQuerySet c)
                   = [prom.GaugeVec (fixtures.opts "orders_total") [] ∅])
  /\ feed (prom.GaugeVec (fixtures.opts "orders_total") [] ∅) [("3", []); ("3", [])]
     = (prom.GaugeVec (fixtures.opts "orders_total") [] {[ [] := 3%float ]}, []).
Proof.
  split; [apply newCollector_kind|].
  split; [reflexivity|].
  split; [intros o names children; apply newCollector_never_counter|].
  split; [eexists; split; vm_compute; reflexivity|].
  vm_compute. reflexivity.
Qed.

(** C7: when [NewExtractor] reports an error for a configured metric, the
    error is logged and start-up goes on with that metric: either the
    extractor handed back is nil and start-up panics, or start-up returns
    with every configured metric compiled and kept, that one included.
    The metric is not skipped. *)
Theorem failed_compile_keeps_metric
    `{Strconv} {E : Type} `{ExtractorAPI E} (cfg : config.Cfg)
    (q : config.Query) (m : config.Metric) (e : string) :
  q ∈ config.Queries cfg ->
  m ∈ config.Metrics q ->
  (NewExtractor (config.LabelPathSeparator cfg) (config.Value m) (config.Labels m)).2
  = Some e ->
  newGraphqlCollector cfg = Panics
  \/ exists c l,
      newGraphqlCollector cfg = Returns (c, l)
      /\ (λ qs, Config <$> Metrics qs) <$> cachedQuerySet c
         = config.Metrics <$> config.Queries cfg
      /\ LogLabelsDefinition (config.Name m) e ∈ l.
Proof.
  intros Hq Hm Herr.
  destruct (newGraphqlCollector cfg) as [[c l]|] eqn:Hnew; [right|left; reflexivity].
  exists c, l. split; [reflexivity|].
  split; [apply (compiled_metrics_all_kept cfg c l Hnew)|].
  apply (newGraphqlCollector_log cfg c l q m e Hnew Hq Hm Herr).
Qed.

(** With a value path that is malformed, the metric ["broken"] is compiled
    into a gauge like its neighbour. *)
Lemma malformed_metric_is_kept :
  exists c l,
    newGraphqlCollector fixtures.malformedCfg = Returns (c, l)
    /\ (λ qs, config.Name <$> (Config <$> Metrics qs)) <$> cachedQuerySet c
       = [["broken"; "price"]]
    /\ isGaugeVec <$> collectorsOf (cachedQuerySet c) = [true; true]
    /\ LogLabelsDefinition "broken" "malformed path expression" ∈ l.
Proof.
  destruct (failed_compile_keeps_metric fixtures.malformedCfg
              {| config.query := "{ items { price } }"; config.Subsystem := "shop";
                 config.Metrics := [fixtures.metric "" "broken" "items.*price" ["items.name"];
                                    fixtures.metric "" "price" "items.*.price" ["items.*.name"]] |}
              (fixtures.metric "" "broken" "items.*price" ["items.name"])
              "malformed path expression")
    as [Hpanic|(c & l & Hnew & Hkept & Hlog)].
  - apply list_elem_of_here.
  - apply list_elem_of_here.
  - vm_compute. reflexivity.
  - vm_compute in Hpanic. discriminate.
  - exists c, l. split; [exact Hnew|].
    vm_compute in Hnew. injection Hnew as <- <-.
    repeat split; try (vm_compute; reflexivity). exact Hlog.
Defined.

(** ** The refresh pass *)

Section PassFacts.

Context `{Strconv} {E : Type} `{ExtractorAPI E}.
Variable cfg : config.Cfg.

(** A pass over [a ++ b] is the pass over [a] and, when that one falls
    through, the pass over [b] from the state it left. *)
Lemma passLoop_app (a b : list (QuerySet E)) s :
  passLoop cfg (a ++ b) s
  = let '(a', s', ctl) := passLoop cfg a s in
    match ctl with
    | Continue =>
        let '(b', s'', ctl') := passLoop cfg b s' in (a' ++ b', s'', ctl')
    | _ => (a' ++ b, s', ctl)
    end.
Proof.
  revert s. induction a as [|q a IH]; intros s; simpl.
  - destruct (passLoop cfg b s) as [[b' s''] ctl']. reflexivity.
  - destruct (queryStep cfg q s) as [[q' s'] ctl]. destruct ctl; try reflexivity.
    rewrite IH. destruct (passLoop cfg a s') as [[a' s1] ctl1].
    destruct ctl1; try reflexivity.
    destruct (passLoop cfg b s1) as [[b' s2] ctl2]. reflexivity.
Qed.

(** A query that fails under fail-fast ends the iteration with
    [return err]: nothing but the call itself has happened. *)
Lemma queryStep_fail_fast (q : QuerySet E) s e :
  queryFailure q s = Some e ->
  config.FailFast cfg = true ->
  exists s', queryStep cfg q s = (q, s', ReturnErr e)
             /\ world s' = (GraphqlQuery (Query q) (world s)).2
             /\ logged s' = logged s ++ [Queried (Query q)].
Proof.
  unfold queryFailure, queryStep. intros Hfail Hff.
  destruct (GraphqlQuery (Query q) (world s)) as [res w]. simpl in *.
  destruct res as [msg|body].
  - injection Hfail as <-. rewrite Hff. eexists. repeat split.
  - destruct (Unmarshal body (gql s)) as [g [e'|]]; simpl in *; [|discriminate].
    injection Hfail as <-. rewrite Hff. eexists. repeat split.
Qed.

(** Without fail-fast the failure is logged, the query set is left as
    it was, and the loop goes on. *)
Lemma queryStep_fail_continue (q : QuerySet E) s e :
  queryFailure q s = Some e ->
  config.FailFast cfg = false ->
  exists s', queryStep cfg q s = (q, s', Continue)
             /\ world s' = (GraphqlQuery (Query q) (world s)).2
             /\ logged s' = logged s ++ [Queried (Query q); failureLine e].
Proof.
  unfold queryFailure, queryStep. intros Hfail Hff.
  destruct (GraphqlQuery (Query q) (world s)) as [res w]. simpl in *.
  destruct res as [msg|body].
  - injection Hfail as <-. rewrite Hff. eexists. repeat split.
    simpl. rewrite <- app_assoc. reflexivity.
  - destruct (Unmarshal body (gql s)) as [g [e'|]]; simpl in *; [|discriminate].
    injection Hfail as <-. rewrite Hff. eexists. repeat split.
    simpl. rewrite <- app_assoc. reflexivity.
Qed.

End PassFacts.

(** C5: in a pass that has fallen through the query sets [before], a
    transport or decode error on [q] either ends the pass at once under
    fail-fast (the sets [after] are returned untouched and unqueried, the
    sets [before] keep what the pass gave them), or is logged, leaves [q]
    as it was, and lets the pass go on with [after]. *)
Theorem failed_query_policy
    `{Strconv} {E : Type} `{ExtractorAPI E} (cfg : config.Cfg)
    (before after before' : list (QuerySet E)) (q : QuerySet E) (s0 s1 : PassState) (e : error) :
  passLoop cfg before s0 = (before', s1, Continue) ->
  queryFailure q s1 = Some e ->
  (config.FailFast cfg = true ->
   exists s2,
     passLoop cfg (before ++ q :: after) s0 = (before' ++ q :: after, s2, ReturnErr e)
     /\ calls (world s2) = S (calls (world s1))
     /\ logged s2 = logged s1 ++ [Queried (Query q)])
  /\ (config.FailFast cfg = false ->
      exists s2,
        queryStep cfg q s1 = (q, s2, Continue)
        /\ calls (world s2) = S (calls (world s1))
        /\ logged s2 = logged s1 ++ [Queried (Query q); failureLine e]
        /\ passLoop cfg (before ++ q :: after) s0
           = let '(after', s3, ctl) := passLoop cfg after s2 in
             (before' ++ q :: after', s3, ctl)).
Proof.
  intros Hbefore Hfail. split; intros Hff.
  - destruct (queryStep_fail_fast cfg q s1 e Hfail Hff) as (s2 & Hstep & Hw & Hl).
    exists s2. rewrite passLoop_app, Hbefore. simpl. rewrite Hstep.
    repeat split; [rewrite Hw; reflexivity | exact Hl].
  - destruct (queryStep_fail_continue cfg q s1 e Hfail Hff) as (s2 & Hstep & Hw & Hl).
    exists s2. split; [exact Hstep|]. split; [rewrite Hw; reflexivity|].
    split; [exact Hl|].
    rewrite passLoop_app, Hbefore. simpl. rewrite Hstep.
    destruct (passLoop cfg after s2) as [[after' s3] ctl]. reflexivity.
Qed.

Lemma failed_query_policy_witness :
  exists before' s1 e,
    passLoop (fixtures.cfgOf true false []) [fixtures.stockQuery]
      (fixtures.startOfPass fixtures.flakyWorld) = (before', s1, Continue)
    /\ queryFailure fixtures.ordersQuery s1 = Some e
    /\ (Collector <$> (before' ≫= Metrics))
       = [prom.GaugeVec (fixtures.opts "stock") [] {[ [] := 7%float ]}]
    /\ exists s2,
        passLoop (fixtures.cfgOf true false [])
          ([fixtures.stockQuery] ++ fixtures.ordersQuery :: [fixtures.usersQuery])
          (fixtures.startOfPass fixtures.flakyWorld)
        = (before' ++ fixtures.ordersQuery :: [fixtures.usersQuery], s2, ReturnErr e)
        /\ calls (world s2) = S (calls (world s1))
        /\ logged s2 = logged s1 ++ [Queried (Query fixtures.ordersQuery)].
Proof.
  do 3 eexists.
  split; [vm_compute; reflexivity|].
  split; [vm_compute; reflexivity|].
  split; [vm_compute; reflexivity|].
  refine (proj1 (failed_query_policy (fixtures.cfgOf true false [])
                   [fixtures.stockQuery] [fixtures.usersQuery] _ fixtures.ordersQuery
                   (fixtures.startOfPass fixtures.flakyWorld) _ _ _ _) _);
    vm_compute; reflexivity.
Defined.

(** ** The cache timestamp *)

Lemma wrap64_small (z : Z) : - 2 ^ 63 <= z < 2 ^ 63 -> wrap64 z = z.
Proof. intros Hz. unfold wrap64. rewrite Z.mod_small; lia. Qed.

Section StampFacts.

Context `{Strconv} {E : Type} `{ExtractorAPI E}.
Variable cfg : config.Cfg.

(** A cache that is stale stays stale while its timestamp stands still
    and the clock does not go back. *)
Lemma expired_later (c c' : GraphqlCollector E) (w w2 : World) :
  expired cfg c w = true ->
  cachedAt c' = cachedAt c ->
  0 <= cachedAt c <= Now w ->
  Now w <= Now w2 < 2 ^ 63 ->
  expired cfg c' w2 = true.
Proof.
  unfold expired, sub64. intros Hexp -> Hat Hnow.
  rewrite wrap64_small in Hexp by lia. rewrite wrap64_small by lia. lia.
Qed.

End StampFacts.

(** C6: when the cache is stale, [updateMetrics] runs the pass and then
    reads the clock: after a pass that returned no error the timestamp is
    that reading; after a pass that returned an error it is that same
    reading (the time the pass ended) if [ExtendCacheOnError] is set, and
    otherwise it is unchanged, so the cache is still stale at any later
    time. *)
Theorem cache_stamp_policy
    `{Strconv} {E : Type} `{ExtractorAPI E} (cfg : config.Cfg)
    (c c' : GraphqlCollector E) (w w' : World) (l : list Event) (ctl : Ctl) :
  expired cfg c w = true ->
  updateMetrics cfg c w = (c', w', l, ctl) ->
  w' = world (getMetrics cfg c w).1.2
  /\ (ctl = Continue -> cachedAt c' = Now w')
  /\ (forall e, ctl = ReturnErr e ->
        cachedAt c' = if config.ExtendCacheOnError cfg then Now w' else cachedAt c)
  /\ (forall e w2, ctl = ReturnErr e ->
        config.ExtendCacheOnError cfg = false ->
        0 <= cachedAt c <= Now w ->
        Now w <= Now w2 < 2 ^ 63 ->
        expired cfg c' w2 = true).
Proof.
  intros Hexp. unfold updateMetrics. rewrite Hexp. unfold stampCache.
  destruct (getMetrics cfg c w) as [[qs s] [|e|]]; intros [= <- <- <- <-]; simpl.
  - repeat split; try discriminate.
  - repeat split; try discriminate.
    intros e' w2 _ Hext Hat Hnow.
    apply (expired_later cfg c _ w w2 Hexp); [|exact Hat|exact Hnow].
    simpl. rewrite Hext. reflexivity.
  - repeat split; try discriminate.
Qed.

Lemma cache_stamp_policy_witness :
  let r := updateMetrics (fixtures.cfgOf true true [])
             (fixtures.collectorOf [fixtures.ordersQuery] 0) fixtures.failingWorld in
  r.2 = ReturnErr (TransportError "context deadline exceeded")
  /\ Now fixtures.failingWorld = 1000
  /\ Now r.1.1.2 = 1030
  /\ cachedAt r.1.1.1 = 1030.
Proof.
  intros r.
  assert (Hctl : r.2 = ReturnErr (TransportError "context deadline exceeded"))
    by (vm_compute; reflexivity).
  split; [exact Hctl|]. split; [reflexivity|]. split; [vm_compute; reflexivity|].
  destruct (cache_stamp_policy (fixtures.cfgOf true true [])
              (fixtures.collectorOf [fixtures.ordersQuery] 0) r.1.1.1
              fixtures.failingWorld r.1.1.2 r.1.2 r.2) as (_ & _ & Hstamp & _).
  - vm_compute. reflexivity.
  - subst r. destruct (updateMetrics _ _ _) as [[[c' w'] l] ctl]. reflexivity.
  - rewrite (Hstamp _ Hctl). vm_compute. reflexivity.
Defined.

(** The claim that a failed pass stamps the cache with the time the
    refresh started does not hold: the failing query took 30 seconds. *)
Lemma stamp_is_not_the_start_time :
  ~ (forall (c c' : GraphqlCollector paths.Extractor) (w w' : World) l e,
        updateMetrics (fixtures.cfgOf true true []) c w = (c', w', l, ReturnErr e) ->
        cachedAt c' = Now w).
Proof.
  intros Hclaim.
  specialize (Hclaim (fixtures.collectorOf [fixtures.ordersQuery] 0) _
                fixtures.failingWorld _ _ _ ltac:(vm_compute; reflexivity)).
  vm_compute in Hclaim. discriminate.
Qed.

(** ** The decoded response across queries *)

Lemma storeMembers_noData members g :
  noDataMember members -> storeMembers members g = (g, None).
Proof.
  induction 1 as [|[k v] members Hk _ IH]; [reflexivity|].
  simpl in *. rewrite Hk. exact IH.
Qed.

(** Decoding an object into a map keeps the entries it does not mention. *)
Lemma mergeInto_unmentioned d (members : list (string * json.Value)) k :
  k ∉ members.*1 -> mergeInto d members !! k = d !! k.
Proof.
  revert d. induction members as [|[k' v] members IH]; intros d Hk; [reflexivity|].
  simpl in *. apply not_elem_of_cons in Hk as [Hne Hk].
  unfold mergeInto in *. simpl. rewrite IH by exact Hk.
  apply lookup_insert_ne. congruence.
Qed.

(** A response without a ["data"] member leaves the struct that [gql]
    points to as the earlier query filled it. *)
Lemma Unmarshal_noData members g :
  noDataMember members ->
  Unmarshal (Document (json.Obj members)) (Some g) = (Some g, None).
Proof.
  intros Hno. unfold Unmarshal. simpl. rewrite (storeMembers_noData _ _ Hno). reflexivity.
Qed.

(** A response whose ["data"] is an object is merged into the map the
    earlier query left. *)
Lemma Unmarshal_data inner g :
  Unmarshal (Document (json.Obj [("data", json.Obj inner)])) g
  = (Some {| Data := Some (mergeInto (default ∅ (g ≫= Data)) inner) |}, None).
Proof. destruct g as [[[d|]]|]; reflexivity. Qed.

Section ReuseFacts.

Context `{Strconv} {E : Type} `{ExtractorAPI E}.
Variable cfg : config.Cfg.

Lemma queryStep_data (q : QuerySet E) s body g d :
  (GraphqlQuery (Query q) (world s)).1 = QueryOk body ->
  Unmarshal body (gql s) = (Some g, None) ->
  Data g = Some d ->
  queryStep cfg q s
  = (withMetrics q (extractAll d (Metrics q)).1,
     {| gql := Some g;
        world := (GraphqlQuery (Query q) (world s)).2;
        logged := (logged s ++ [Queried (Query q)]) ++ (extractAll d (Metrics q)).2 |},
     Continue).
Proof.
  intros Hres Hdec Hdata. unfold queryStep.
  destruct (GraphqlQuery (Query q) (world s)) as [res w']. simpl in *. subst res.
  rewrite Hdec, Hdata. destruct (extractAll d (Metrics q)) as [ms l']. reflexivity.
Qed.

End ReuseFacts.

(** C10: [gql] is declared once per pass and decoded into again for every
    query.  After a first response [{"data": {...}}], a second response
    that decodes without error but has no ["data"] member hands the first
    query's data to the second query set's extraction; one whose ["data"]
    object omits keys of the first keeps those entries. *)
Theorem earlier_data_is_reused
    `{Strconv} {E : Type} `{ExtractorAPI E} (cfg : config.Cfg)
    (c : GraphqlCollector E) (q1 q2 : QuerySet E) (w : World)
    (inner second : list (string * json.Value)) (t1 t2 : Z) :
  cachedQuerySet c = [q1; q2] ->
  remote w (calls w) (Query q1)
  = {| elapsed := t1;
       result := QueryOk (Document (json.Obj [("data", json.Obj inner)])) |} ->
  remote w (S (calls w)) (Query q2)
  = {| elapsed := t2; result := QueryOk (Document (json.Obj second)) |} ->
  let data := mergeInto ∅ inner in
  (noDataMember second ->
   (getMetrics cfg c w).1.1
   = [withMetrics q1 (extractAll data (Metrics q1)).1;
      withMetrics q2 (extractAll data (Metrics q2)).1]
   /\ (getMetrics cfg c w).2 = Continue)
  /\ (forall inner2, second = [("data", json.Obj inner2)] ->
      (getMetrics cfg c w).1.1
      = [withMetrics q1 (extractAll data (Metrics q1)).1;
         withMetrics q2 (extractAll (mergeInto data inner2) (Metrics q2)).1]
      /\ (forall k, k ∉ inner2.*1 -> mergeInto data inner2 !! k = data !! k)).
Proof.
  intros Hc Hr1 Hr2 data.
  set (s0 := {| gql := None; world := w; logged := [] |}).
  set (s1 := {| gql := Some {| Data := Some data |};
                world := (GraphqlQuery (Query q1) (world s0)).2;
                logged := (logged s0 ++ [Queried (Query q1)])
                            ++ (extractAll data (Metrics q1)).2 |}).
  assert (Hfirst : queryStep cfg q1 s0
                   = (withMetrics q1 (extractAll data (Metrics q1)).1, s1, Continue)).
  { apply (queryStep_data cfg q1 s0 (Document (json.Obj [("data", json.Obj inner)]))
             {| Data := Some data |} data);
      [simpl; rewrite Hr1; reflexivity | apply Unmarshal_data | reflexivity]. }
  assert (Hsecond : (GraphqlQuery (Query q2) (world s1)).1
                    = QueryOk (Document (json.Obj second)))
    by (simpl; rewrite Hr2; reflexivity).
  split.
  - intros Hno. unfold getMetrics. rewrite Hc. fold s0. simpl passLoop. rewrite Hfirst.
    rewrite (queryStep_data cfg q2 s1 (Document (json.Obj second))
               {| Data := Some data |} data Hsecond
               (Unmarshal_noData second _ Hno) eq_refl).
    split; reflexivity.
  - intros inner2 ->. split; [|intros k Hk; apply mergeInto_unmentioned; exact Hk].
    unfold getMetrics. rewrite Hc. fold s0. simpl passLoop. rewrite Hfirst.
    rewrite (queryStep_data cfg q2 s1 (Document (json.Obj [("data", json.Obj inner2)]))
               {| Data := Some (mergeInto data inner2) |} (mergeInto data inner2) Hsecond
               (Unmarshal_data inner2 _) eq_refl).
    reflexivity.
Qed.

Lemma earlier_data_is_reused_witness :
  Collector <$> ((getMetrics (fixtures.cfgOf false false [])
                    (fixtures.collectorOf [fixtures.stockQuery; fixtures.shadowQuery] 0)
                    fixtures.errorsOnlyWorld).1.1 ≫= Metrics)
  = [prom.GaugeVec (fixtures.opts "stock") [] {[ [] := 7%float ]};
     prom.GaugeVec (fixtures.opts "shadow") [] {[ [] := 7%float ]}].
Proof.
  destruct (earlier_data_is_reused (fixtures.cfgOf false false [])
              (fixtures.collectorOf [fixtures.stockQuery; fixtures.shadowQuery] 0)
              fixtures.stockQuery fixtures.shadowQuery fixtures.errorsOnlyWorld
              [("stock", json.Num "7")] [("errors", json.Arr [json.Str "boom"])] 1 1
              eq_refl eq_refl eq_refl) as [Hno _].
  destruct Hno as [Hqs _]; [repeat constructor|].
  rewrite Hqs. vm_compute. reflexivity.
Defined.

(** ** Scrapes *)

Lemma keepsObservations_refl c : keepsObservations c c.
Proof.
  destruct c; simpl; try exact I.
  intros labels observed Hl. exists []. rewrite app_nil_r. exact Hl.
Qed.

Lemma keepsObservations_trans c1 c2 c3 :
  keepsObservations c1 c2 -> keepsObservations c2 c3 -> keepsObservations c1 c3.
Proof.
  destruct c1, c2, c3; simpl; try tauto.
  intros H12 H23 labels observed Hl.
  destruct (H12 _ _ Hl) as [more1 H2]. destruct (H23 _ _ H2) as [more2 H3].
  exists (more1 ++ more2). rewrite app_assoc. exact H3.
Qed.

Lemma Collect_afterScrape (l : list prom.Collector) :
  (afterScrape <$> l) ≫= prom.Collect
  = filter (λ c, isHistogramVec c = false) l ≫= prom.Collect.
Proof.
  induction l as [|c l IH]; [reflexivity|].
  rewrite fmap_cons, filter_cons, bind_cons, IH.
  destruct c; simpl.
  - rewrite map_to_list_empty. destruct (decide (true = false)); [discriminate|reflexivity].
  - destruct (decide (false = false)); [|congruence]. reflexivity.
  - destruct (decide (false = false)); [|congruence]. reflexivity.
  - destruct (decide (false = false)); [|congruence]. reflexivity.
Qed.

Section ScrapeFacts.

Context {E : Type}.

Lemma collectMetric_spec (m : Metric E) :
  (collectMetric m).1
  = (withCollector m (afterScrape (Collector m)), prom.Collect (Collector m)).
Proof. destruct m as [[| | |] mc ex]; reflexivity. Qed.

Lemma collectMetrics_spec (ms : list (Metric E)) :
  (collectMetrics ms).1
  = ((λ m, withCollector m (afterScrape (Collector m))) <$> ms,
     (Collector <$> ms) ≫= prom.Collect).
Proof.
  induction ms as [|m ms IH]; [reflexivity|].
  simpl. pose proof (collectMetric_spec m) as Hm.
  destruct (collectMetric m) as [[m' out1] l1].
  destruct (collectMetrics ms) as [[ms' out2] l2].
  simpl in *. injection Hm as -> ->. injection IH as -> ->. reflexivity.
Qed.

Lemma collectQuerySets_spec (qs : list (QuerySet E)) :
  (collectQuerySets qs).1
  = (mapCollectors afterScrape qs, collectorsOf qs ≫= prom.Collect).
Proof.
  induction qs as [|q qs IH]; [reflexivity|].
  simpl. pose proof (collectMetrics_spec (Metrics q)) as Hq.
  destruct (collectMetrics (Metrics q)) as [[ms out1] l1].
  destruct (collectQuerySets qs) as [[qs' out2] l2].
  simpl in *. injection Hq as -> ->. injection IH as -> ->.
  unfold collectorsOf. rewrite bind_app. reflexivity.
Qed.

Lemma collectorsOf_mapCollectors f (qs : list (QuerySet E)) :
  collectorsOf (mapCollectors f qs) = f <$> collectorsOf qs.
Proof.
  unfold collectorsOf, mapCollectors.
  induction qs as [|q qs IH]; [reflexivity|].
  rewrite fmap_cons, !bind_cons, fmap_app, IH. f_equal.
  simpl. rewrite <- !list_fmap_compose. reflexivity.
Qed.

Lemma emit_spec (c : GraphqlCollector E) :
  cachedQuerySet (emit c).1.1 = mapCollectors afterScrape (cachedQuerySet c)
  /\ (emit c).1.2 = collectorsOf (cachedQuerySet c) ≫= prom.Collect
  /\ cachedAt (emit c).1.1 = cachedAt c.
Proof.
  unfold emit. pose proof (collectQuerySets_spec (cachedQuerySet c)) as Hqs.
  destruct (collectQuerySets (cachedQuerySet c)) as [[qs out] l].
  simpl in *. injection Hqs as -> ->. repeat split.
Qed.

End ScrapeFacts.

Section RefreshKeepsObservations.

Context `{Strconv} {E : Type} `{ExtractorAPI E}.
Variable cfg : config.Cfg.

Lemma callbackFunc_keeps c value labels :
  keepsObservations c (callbackFunc c value labels).1.
Proof.
  unfold callbackFunc. destruct (String.eqb value ""); [apply keepsObservations_refl|].
  destruct c as [o names children| | |]; simpl; try exact I.
  destruct (ParseFloat value) as [f err]. simpl.
  intros k observed Hk. unfold prom.Observe.
  destruct (decide (labels = k)) as [->|Hne].
  - rewrite lookup_insert_eq, Hk. simpl. eauto.
  - rewrite lookup_insert_ne by exact Hne. exists []. rewrite app_nil_r. exact Hk.
Qed.

Lemma feed_keeps pairs c : keepsObservations c (feed c pairs).1.
Proof.
  revert c. induction pairs as [|[value labels] pairs IH]; intros c; simpl.
  - apply keepsObservations_refl.
  - pose proof (callbackFunc_keeps c value labels) as Hc.
    destruct (callbackFunc c value labels) as [c1 l1]. specialize (IH c1).
    destruct (feed c1 pairs) as [c2 l2]. simpl in *.
    eapply keepsObservations_trans; eassumption.
Qed.

Lemma extractAll_keeps data (ms : list (Metric E)) :
  Forall2 keepsObservations (Collector <$> ms) (Collector <$> (extractAll data ms).1).
Proof.
  induction ms as [|m ms IH]; simpl; [constructor|].
  unfold extractInto. pose proof (feed_keeps (ExtractMetrics (Extractor m) data) (Collector m)) as Hm.
  destruct (feed (Collector m) _) as [c l1].
  destruct (extractAll data ms) as [ms' l2]. simpl in *.
  constructor; assumption.
Qed.

Lemma Forall2_keeps_refl (l : list prom.Collector) : Forall2 keepsObservations l l.
Proof. induction l; constructor; [apply keepsObservations_refl | assumption]. Qed.

Lemma queryStep_keeps (q : QuerySet E) s :
  Forall2 keepsObservations (Collector <$> Metrics q)
          (Collector <$> Metrics (queryStep cfg q s).1.1).
Proof.
  unfold queryStep. destruct (GraphqlQuery (Query q) (world s)) as [[msg|body] w].
  - destruct (config.FailFast cfg); apply Forall2_keeps_refl.
  - destruct (Unmarshal body (gql s)) as [g [e|]].
    + destruct (config.FailFast cfg); apply Forall2_keeps_refl.
    + destruct g as [[[data|]]|]; try apply Forall2_keeps_refl.
      simpl. pose proof (extractAll_keeps data (Metrics q)) as Hq.
      destruct (extractAll data (Metrics q)) as [ms l']. exact Hq.
Qed.

Lemma passLoop_keeps (qs : list (QuerySet E)) s :
  Forall2 keepsObservations (collectorsOf qs) (collectorsOf (passLoop cfg qs s).1.1).
Proof.
  unfold collectorsOf. revert s. induction qs as [|q qs IH]; intros s.
  - constructor.
  - simpl passLoop. pose proof (queryStep_keeps q s) as Hq.
    destruct (queryStep cfg q s) as [[q' s'] ctl]. simpl in Hq.
    destruct ctl.
    + specialize (IH s'). destruct (passLoop cfg qs s') as [[qs' s''] ctl'].
      simpl in IH. simpl fst. rewrite !bind_cons. apply Forall2_app; assumption.
    + simpl fst. rewrite !bind_cons.
      apply Forall2_app; [assumption|apply Forall2_keeps_refl].
    + simpl fst. rewrite !bind_cons.
      apply Forall2_app; [assumption|apply Forall2_keeps_refl].
Qed.

End RefreshKeepsObservations.

(** C4: a scrape sends the state every collector has accumulated, then
    leaves each histogram vector without children and each gauge and
    counter vector as it was; a second scrape with no refresh in between
    sends nothing for the histograms and the same samples for the others.
    A refresh pass, for its part, never removes an observation from a
    histogram: only a scrape empties it. *)
Theorem scrape_resets_histograms_only
    `{Strconv} {E : Type} `{ExtractorAPI E} (cfg : config.Cfg)
    (c : GraphqlCollector E) (w : World) :
  (emit c).1.2 = collectorsOf (cachedQuerySet c) ≫= prom.Collect
  /\ cachedQuerySet (emit c).1.1 = mapCollectors afterScrape (cachedQuerySet c)
  /\ collectorsOf (cachedQuerySet (emit c).1.1)
     = (λ x, if isHistogramVec x then prom.Reset x else x) <$> collectorsOf (cachedQuerySet c)
  /\ (emit (emit c).1.1).1.2
     = filter (λ x, isHistogramVec x = false) (collectorsOf (cachedQuerySet c)) ≫= prom.Collect
  /\ Forall2 keepsObservations (collectorsOf (cachedQuerySet c))
             (collectorsOf (getMetrics cfg c w).1.1).
Proof.
  destruct (emit_spec c) as (Hqs & Hout & _).
  split; [exact Hout|]. split; [exact Hqs|].
  split; [|split].
  - rewrite Hqs, collectorsOf_mapCollectors. apply list_fmap_ext.
    intros _ x _. destruct x; reflexivity.
  - destruct (emit_spec (emit c).1.1) as (_ & Hout2 & _).
    rewrite Hout2, Hqs, collectorsOf_mapCollectors. apply Collect_afterScrape.
  - apply passLoop_keeps.
Qed.

(** ** The interleaving machine *)

Lemma tally_insert P (l : list Thread) i x y :
  l !! i = Some x ->
  (tally P (<[i := y]> l) + Nat.b2n (P x) = tally P l + Nat.b2n (P y))%nat.
Proof.
  revert i. induction l as [|a l IH]; intros [|i] Hi; simplify_eq/=.
  - unfold tally. simpl. lia.
  - specialize (IH i Hi). unfold tally in *. simpl. lia.
Qed.

Lemma tally_app P (l k : list Thread) : tally P (l ++ k) = (tally P l + tally P k)%nat.
Proof. apply sum_list_with_app. Qed.

Lemma tally_zero P (l : list Thread) : tally P l = 0%nat <-> Forall (λ t, P t = false) l.
Proof.
  induction l as [|a l IH]; simpl.
  - split; [constructor|reflexivity].
  - unfold tally in *. simpl. split.
    + intros Hsum. constructor; [destruct (P a); [simpl in Hsum; lia|reflexivity]|].
      apply IH. lia.
    + intros Hall. inversion Hall as [|? ? Ha Hl]; subst. rewrite Ha. simpl.
      apply IH. exact Hl.
Qed.

Lemma tally_lookup P (l : list Thread) i x :
  l !! i = Some x -> (Nat.b2n (P x) <= tally P l)%nat.
Proof.
  intros Hi. apply (sum_list_with_in _ (λ t, Nat.b2n (P t))).
  eapply list_elem_of_lookup_2. exact Hi.
Qed.

Lemma tally_le P Q (l : list Thread) :
  (forall t, P t = true -> Q t = true) -> (tally P l <= tally Q l)%nat.
Proof.
  intros HPQ. induction l as [|a l IH]; [reflexivity|].
  unfold tally in *. simpl. specialize (HPQ a).
  destruct (P a), (Q a); simpl; first [lia | specialize (HPQ eq_refl); discriminate].
Qed.

(** When at most one thread satisfies [f] and it is the one that moves,
    what held of the threads before holds, adapted, of the threads after. *)
Lemma Forall_insert_exclusive (f : Thread -> bool) (P Q : Thread -> Prop) l i x y :
  (tally f l <= 1)%nat ->
  l !! i = Some x ->
  f x = true ->
  Forall P l ->
  (forall t, f t = false -> P t -> Q t) ->
  Q y ->
  Forall Q (<[i := y]> l).
Proof.
  intros Hone Hi Hx Hall HPQ Hy. revert i Hone Hi Hall.
  induction l as [|a l IH]; intros [|i] Hone Hi Hall; simplify_eq/=.
  - inversion Hall as [|? ? _ Hl]; subst. constructor; [exact Hy|].
    unfold tally in Hone. simpl in Hone. rewrite Hx in Hone. simpl in Hone.
    assert (Hz : tally f l = 0%nat) by (unfold tally; lia).
    apply tally_zero in Hz. clear -Hz Hl HPQ.
    induction Hl as [|b l Hb Hl IH]; [constructor|].
    inversion Hz; subst. constructor; auto.
  - inversion Hall as [|? ? Ha Hl]; subst.
    pose proof (tally_lookup f l i x Hi) as Hge. rewrite Hx in Hge. simpl in Hge.
    unfold tally in Hone, Hge. simpl in Hone.
    destruct (f a) eqn:Hfa; simpl in Hone; [lia|].
    constructor; [apply HPQ; assumption|].
    apply IH; [unfold tally; lia|exact Hi|exact Hl].
Qed.

Lemma agrees_mono flag (P Q : Prop) t : (P -> Q) -> agrees flag P t -> agrees flag Q t.
Proof. intros HPQ. destruct t as [[]|[]]; simpl; tauto. Qed.

Section MachineFacts.

Context `{Strconv} {E : Type} `{ExtractorAPI E}.
Variable cfg : config.Cfg.

Lemma stampCache_flags (c : GraphqlCollector E) pass :
  updaterIsRunning (stampCache cfg c pass).1.1.1 = updaterIsRunning c
  /\ updaterMu (stampCache cfg c pass).1.1.1 = updaterMu c
  /\ accessMu (stampCache cfg c pass).1.1.1 = accessMu c.
Proof. destruct pass as [[qs s] [|e|]]; repeat split. Qed.

Lemma emit_flags (c : GraphqlCollector E) :
  updaterIsRunning (emit c).1.1 = updaterIsRunning c
  /\ updaterMu (emit c).1.1 = updaterMu c
  /\ accessMu (emit c).1.1 = accessMu c.
Proof.
  unfold emit. destruct (collectQuerySets (cachedQuerySet c)) as [[qs out] l].
  repeat split.
Qed.

Lemma initMachine_Inv (c : GraphqlCollector E) w n : Inv (initMachine c w n).
Proof.
  assert (Hz : forall P, P (Scrape S_lockUpdater) = false ->
                         tally P (replicate n (Scrape S_lockUpdater)) = 0%nat).
  { intros P HP. apply tally_zero. apply Forall_replicate. apply HP. }
  constructor; unfold count; simpl.
  - apply Hz. reflexivity.
  - apply Hz. reflexivity.
  - apply Hz. reflexivity.
  - apply Forall_replicate. exact I.
  - symmetry. apply Hz. reflexivity.
Qed.

End MachineFacts.

Section MachineInvariant.

Context `{Strconv} {E : Type} `{ExtractorAPI E}.
Variable cfg : config.Cfg.

Ltac tallies Hi :=
  match goal with
  | |- context [<[?i := ?y]> ?l] =>
      pose proof (tally_insert holdsUpdaterMu l i _ y Hi);
      pose proof (tally_insert holdsAccessMu l i _ y Hi);
      pose proof (tally_insert owesFlag l i _ y Hi);
      pose proof (tally_insert cleared l i _ y Hi);
      pose proof (tally_insert isRefresh l i _ y Hi)
  end.

Ltac bools :=
  solve [ repeat match goal with b : bool |- _ => destruct b end; simpl in *; lia ].

(** The fields of [Inv] that count threads, after a move of thread [i]. *)
Ltac go Hi :=
  unfold move; simpl; tallies Hi; simpl in *;
  constructor; unfold count; simpl; rewrite ?tally_app, ?length_app; simpl; try lia;
  try bools.

(** The thread that moves leaves the flag alone. *)
Ltac same_flag Hag Hi :=
  apply Forall_insert;
  [ eapply Forall_impl; [exact Hag | intros ?; apply agrees_mono; lia]
  | pose proof (Forall_lookup_1 _ _ _ _ Hag Hi) as Hmine; simpl in Hmine |- *;
    first [ exact I | reflexivity | left; reflexivity
          | destruct Hmine; [left; assumption | right; lia] ] ].

Lemma stepThread_Inv i (m m' : Machine E) :
  Inv m -> stepThread cfg i m = Some m' -> Inv m'.
Proof.
  intros [Hu Ha Hf Hag Hst] Hstep. unfold stepThread in Hstep.
  destruct (crashed m) eqn:Hcr; [discriminate|].
  destruct m as [c w ths snk sts jr cr]. unfold count in *. simpl in *.
  destruct (ths !! i) as [[pc|pc]|] eqn:Hi; [| |discriminate].
  - destruct pc; simpl in Hstep.
    + (* S_lockUpdater *)
      destruct c as [qs at_ flag umu amu url]; simpl in *.
      destruct umu; [discriminate|]. injection Hstep as <-.
      go Hi. same_flag Hag Hi.
    + (* S_readFlag *)
      destruct c as [qs at_ flag umu amu url]; simpl in *.
      injection Hstep as <-. go Hi. same_flag Hag Hi.
    + (* S_setFlag *)
      destruct c as [qs at_ flag umu amu url]; simpl in *.
      injection Hstep as <-.
      pose proof (Forall_lookup_1 _ _ _ _ Hag Hi) as Hread. simpl in Hread. subst start.
      go Hi.
      eapply (Forall_insert_exclusive holdsUpdaterMu
                  (agrees flag (0 < tally cleared ths)%nat));
        [destruct umu; simpl in *; lia | exact Hi | reflexivity | exact Hag | | left; reflexivity].
      intros [[]|[]]; simpl; intros; try discriminate; auto.
    + (* S_unlockUpdater *)
      destruct c as [qs at_ flag umu amu url]; simpl in *.
      injection Hstep as <-. go Hi. same_flag Hag Hi.
    + (* S_spawn *)
      destruct c as [qs at_ flag umu amu url]; simpl in *.
      destruct start; injection Hstep as <-.
      * go Hi. apply Forall_app. split; [|repeat constructor].
        apply Forall_insert;
          [ eapply Forall_impl; [exact Hag | intros ?; apply agrees_mono; lia]
          | pose proof (Forall_lookup_1 _ _ _ _ Hag Hi) as Hmine; simpl in Hmine |- *;
            destruct Hmine; [left; assumption | right; lia] ].
      * go Hi. same_flag Hag Hi.
    + (* S_lockAccess *)
      destruct c as [qs at_ flag umu amu url]; simpl in *.
      destruct amu; [discriminate|]. injection Hstep as <-.
      go Hi. same_flag Hag Hi.
    + (* S_emit *)
      pose proof (emit_flags c) as (Hf1 & Hf2 & Hf3).
      destruct (emit c) as [[c' out] l]. simpl in *. injection Hstep as <-.
      go Hi; rewrite ?Hf1, ?Hf2, ?Hf3; try lia. same_flag Hag Hi.
    + (* S_unlockAccess *)
      destruct c as [qs at_ flag umu amu url]; simpl in *.
      injection Hstep as <-. go Hi. same_flag Hag Hi.
    + discriminate.
  - destruct pc; simpl in Hstep.
    + (* T_check *)
      destruct (expired cfg c w); injection Hstep as <-; go Hi; same_flag Hag Hi.
    + (* T_lockAccess *)
      destruct c as [qs at_ flag umu amu url]; simpl in *.
      destruct amu; [discriminate|]. injection Hstep as <-.
      go Hi. same_flag Hag Hi.
    + (* T_pass *)
      pose proof (stampCache_flags cfg c (getMetrics cfg c w)) as (Hf1 & Hf2 & Hf3).
      destruct (stampCache cfg c (getMetrics cfg c w)) as [[[c' w'] l] ctl]. simpl in *.
      destruct ctl; injection Hstep as <-.
      * go Hi; rewrite ?Hf1, ?Hf2, ?Hf3; try lia. same_flag Hag Hi.
      * go Hi; rewrite ?Hf1, ?Hf2, ?Hf3; try lia. same_flag Hag Hi.
      * constructor; unfold count; simpl; rewrite ?Hf1, ?Hf2, ?Hf3; assumption.
    + (* T_unlockAccess *)
      destruct c as [qs at_ flag umu amu url]; simpl in *.
      injection Hstep as <-. go Hi. same_flag Hag Hi.
    + (* T_lockUpdater *)
      destruct c as [qs at_ flag umu amu url]; simpl in *.
      destruct umu; [discriminate|]. injection Hstep as <-.
      go Hi. same_flag Hag Hi.
    + (* T_clearFlag *)
      destruct c as [qs at_ flag umu amu url]; simpl in *.
      injection Hstep as <-. go Hi.
      eapply (Forall_insert_exclusive holdsUpdaterMu
                  (agrees flag (0 < tally cleared ths)%nat));
        [destruct umu; simpl in *; lia | exact Hi | reflexivity | exact Hag | | reflexivity].
      intros [[]|[]]; simpl; intros; try discriminate; auto; right; lia.
    + (* T_unlockUpdater *)
      destruct c as [qs at_ flag umu amu url]; simpl in *.
      injection Hstep as <-. go Hi. same_flag Hag Hi.
    + discriminate.
Qed.

End MachineInvariant.

Lemma tally_pos P (l : list Thread) :
  (0 < tally P l)%nat -> exists i t, l !! i = Some t /\ P t = true.
Proof.
  induction l as [|a l IH]; unfold tally in *; simpl; [lia|].
  destruct (P a) eqn:Ha.
  - intros _. exists 0%nat, a. split; [reflexivity|exact Ha].
  - simpl. intros Hpos. destruct (IH Hpos) as (i & t & Hi & Ht).
    exists (S i), t. split; assumption.
Qed.

Lemma tally_le_sum P Q R (l : list Thread) :
  Forall (λ t, P t = true -> Q t = true \/ R t = true) l ->
  (tally P l <= tally Q l + tally R l)%nat.
Proof.
  induction 1 as [|a l Ha _ IH]; [reflexivity|].
  unfold tally in *. simpl.
  destruct (P a), (Q a), (R a); simpl;
    first [lia | destruct Ha; [reflexivity|discriminate|discriminate]].
Qed.

Lemma tally_ext P Q (l : list Thread) :
  Forall (λ t, P t = Q t) l -> tally P l = tally Q l.
Proof.
  induction 1 as [|a l Ha _ IH]; [reflexivity|].
  unfold tally in *. simpl. rewrite Ha, IH. reflexivity.
Qed.

Section MachineTheorems.

Context `{Strconv} {E : Type} `{ExtractorAPI E}.
Variable cfg : config.Cfg.

Lemma step_Inv (m m' : Machine E) : Inv m -> step cfg m m' -> Inv m'.
Proof.
  intros HI Hstep. destruct Hstep as [i m m' Hstep|d m Hd|m].
  - eapply stepThread_Inv; eassumption.
  - destruct HI. constructor; assumption.
  - destruct HI as [Hu Ha Hf Hag Hst].
    constructor; unfold count in *; simpl; rewrite ?tally_app; simpl; try lia.
    apply Forall_app. split; [|repeat constructor].
    eapply Forall_impl; [exact Hag|]. intros t. apply agrees_mono. lia.
Qed.

Lemma reachable_Inv (c : GraphqlCollector E) w n m :
  reachable cfg (initMachine c w n) m -> Inv m.
Proof.
  revert m. apply (rtc_ind_r (λ m, Inv m)).
  - apply initMachine_Inv.
  - intros m m' _ Hstep IH. eapply step_Inv; eassumption.
Qed.

Lemma runSchedule_reachable sched (m m' : Machine E) :
  runSchedule cfg sched m = Some m' -> reachable cfg m m'.
Proof.
  revert m. induction sched as [|i sched IH]; intros m; simpl.
  - intros [= <-]. apply rtc_refl.
  - destruct (stepThread cfg i m) as [m1|] eqn:Hstep; [|discriminate].
    intros Hrun. eapply rtc_l; [eapply step_thread; exact Hstep|apply IH; exact Hrun].
Qed.

(** A thread that holds a mutex is never the one that waits. *)
Lemma holder_moves (m : Machine E) i t :
  crashed m = false ->
  threads m !! i = Some t ->
  holdsUpdaterMu t = true \/ holdsAccessMu t = true ->
  is_Some (stepThread cfg i m).
Proof.
  intros Hcr Hi Hholds. unfold stepThread. rewrite Hcr, Hi.
  destruct t as [[]|[]]; simpl in *; try (destruct Hholds; discriminate); eauto.
  - destruct (emit (coll m)) as [[c' out] l]. eauto.
  - destruct (stampCache cfg (coll m) _) as [[[c' w'] l] [|e|]]; eauto.
Qed.

(** Some thread can move as long as one has not returned. *)
Lemma no_deadlock (m : Machine E) :
  Inv m ->
  crashed m = false ->
  Exists (λ t, finished t = false) (threads m) ->
  exists i, is_Some (stepThread cfg i m).
Proof.
  intros [Hu Ha _ _ _] Hcr Hex. unfold count in *.
  destruct (updaterMu (coll m)) eqn:Hmu.
  - destruct (tally_pos holdsUpdaterMu (threads m)) as (i & t & Hi & Ht);
      [rewrite Hu; simpl; lia|].
    exists i. eapply holder_moves; eauto.
  - destruct (accessMu (coll m)) eqn:Hamu.
    + destruct (tally_pos holdsAccessMu (threads m)) as (i & t & Hi & Ht);
        [rewrite Ha; simpl; lia|].
      exists i. eapply holder_moves; eauto.
    + apply Exists_exists in Hex as (t & Hin & Ht).
      apply list_elem_of_lookup in Hin as [i Hi]. exists i.
      unfold stepThread. rewrite Hcr, Hi.
      destruct t as [[]|[]]; simpl in *; try discriminate; rewrite ?Hmu, ?Hamu; eauto.
      * destruct start; eauto.
      * destruct (emit (coll m)) as [[c' out] l]. eauto.
      * destruct (expired cfg (coll m) (env m)); eauto.
      * destruct (stampCache cfg (coll m) _) as [[[c' w'] l] [|e|]]; eauto.
Qed.

End MachineTheorems.

(** C3: in every state the process can reach, at most one refresh
    goroutine has not returned.  Once every scrape is through
    [atomicUpdate] and no goroutine has cleared the flag yet, exactly one
    [go] statement has been executed, whatever the number of scrapes.  A
    goroutine that has executed its last assignment sees the flag cleared,
    and when all threads have returned the flag and both mutexes are free
    again; until then some thread can always move. *)
Theorem single_flight_refresh
    `{Strconv} {E : Type} `{ExtractorAPI E} (cfg : config.Cfg)
    (c : GraphqlCollector E) (w : World) (n : nat) (m : Machine E) :
  reachable cfg (initMachine c w n) m ->
  (count liveRefresh m <= 1)%nat
  /\ (count cleared m = 0%nat ->
      Forall (λ t, isScrape t = true -> triggered t = true) (threads m) ->
      Exists (λ t, isScrape t = true) (threads m) ->
      length (starters m) = 1%nat /\ count isRefresh m = 1%nat /\ count liveRefresh m = 1%nat)
  /\ Forall (λ t, t = Refresh T_unlockUpdater -> updaterIsRunning (coll m) = false) (threads m)
  /\ (Forall (λ t, finished t = true) (threads m) ->
      updaterIsRunning (coll m) = false
      /\ updaterMu (coll m) = false
      /\ accessMu (coll m) = false)
  /\ (crashed m = false ->
      Exists (λ t, finished t = false) (threads m) ->
      exists i, is_Some (stepThread cfg i m)).
Proof.
  intros Hreach. pose proof (reachable_Inv cfg c w n m Hreach) as HI.
  pose proof HI as [Hu Ha Hf Hag Hst]. unfold count in *.
  split; [|split; [|split; [|split]]].
  - (* at most one live goroutine *)
    pose proof (tally_le_sum liveRefresh owesFlag
                  (λ t, match t with Refresh T_unlockUpdater => true | _ => false end)
                  (threads m)) as Hsum.
    assert (Hle : (tally (λ t, match t with Refresh T_unlockUpdater => true | _ => false end)
                     (threads m) <= tally holdsUpdaterMu (threads m))%nat).
    { apply tally_le. intros [[]|[]]; simpl; congruence. }
    specialize (Hsum ltac:(apply Forall_forall; intros [[]|[]] _; simpl; auto)).
    destruct (updaterIsRunning (coll m)) eqn:Hflag; simpl in *.
    + assert (Hz : tally (λ t, match t with Refresh T_unlockUpdater => true | _ => false end)
                     (threads m) = 0%nat).
      { apply tally_zero. eapply Forall_impl; [exact Hag|].
        intros [[]|[]]; simpl; congruence. }
      lia.
    + destruct (updaterMu (coll m)); simpl in *; lia.
  - (* one refresh outstanding, every scrape through the trigger *)
    intros Hnone Hall Hsome.
    assert (Hflag : updaterIsRunning (coll m) = true).
    { apply Exists_exists in Hsome as (t & Hin & Ht).
      rewrite Forall_forall in Hall, Hag.
      specialize (Hall t Hin Ht). specialize (Hag t Hin).
      destruct t as [[]|[]]; simpl in *; try discriminate; destruct Hag; auto; lia. }
    rewrite Hflag in Hf. simpl in Hf.
    apply tally_zero in Hnone.
    assert (Hsame : tally owesFlag (threads m) = tally isRefresh (threads m)
                    /\ tally liveRefresh (threads m) = tally isRefresh (threads m)).
    { split; apply tally_ext; rewrite Forall_forall in *; intros t Hin;
        specialize (Hall t Hin); specialize (Hnone t Hin);
        destruct t as [[]|[]]; simpl in *; try reflexivity; try discriminate;
        specialize (Hall eq_refl); discriminate. }
    destruct Hsame as [Ho Hl]. lia.
  - eapply Forall_impl; [exact Hag|].
    intros t Ht ->. exact Ht.
  - (* all threads have returned *)
    intros Hdone.
    assert (Hz : forall P, (forall t, finished t = true -> P t = false) ->
                           tally P (threads m) = 0%nat).
    { intros P HP. apply tally_zero. eapply Forall_impl; [exact Hdone|]. exact HP. }
    rewrite (Hz holdsUpdaterMu) in Hu by (intros [[]|[]]; simpl; congruence).
    rewrite (Hz holdsAccessMu) in Ha by (intros [[]|[]]; simpl; congruence).
    rewrite (Hz owesFlag) in Hf by (intros [[]|[]]; simpl; congruence).
    destruct (updaterIsRunning (coll m)), (updaterMu (coll m)), (accessMu (coll m));
      simpl in *; try discriminate; auto.
  - intros Hcr Hex. apply no_deadlock; assumption.
Qed.

Lemma single_flight_refresh_witness :
  length (starters fixtures.afterTriggers) = 1%nat
  /\ (count liveRefresh fixtures.afterTriggers <= 1)%nat
  /\ count isScrape fixtures.afterTriggers = 3%nat.
Proof.
  assert (Hreach : reachable (fixtures.cfgOf false false []) (fixtures.boot 3)
                     fixtures.afterTriggers).
  { apply (runSchedule_reachable _
             (fixtures.trigger 0 ++ fixtures.trigger 1 ++ fixtures.trigger 2)).
    vm_compute. reflexivity. }
  destruct (single_flight_refresh (fixtures.cfgOf false false [])
              (fixtures.collectorOf [fixtures.stockQuery] 0) fixtures.flakyWorld 3
              fixtures.afterTriggers Hreach) as (Hlive & Hone & _).
  split; [|split; [exact Hlive | vm_compute; reflexivity]].
  apply Hone.
  - vm_compute. reflexivity.
  - apply (bool_decide_unpack _). vm_compute. exact I.
  - apply (bool_decide_unpack _). vm_compute. exact I.
Defined.

Lemma bind_nil_Forall {A B} (f : A -> list B) (l : list A) :
  Forall (λ x, f x = []) l -> l ≫= f = [].
Proof.
  induction 1 as [|a l Ha _ IH]; [reflexivity|].
  rewrite bind_cons, Ha, IH. reflexivity.
Qed.

(** The claim that a scrape never waits for a refresh to complete does not
    hold: with the pass in progress (the goroutine holds the access mutex
    and its query is outstanding) the scrape that is about to emit cannot
    move. *)
Lemma scrape_waits_for_refresh_pass :
  ~ (forall (m : Machine paths.Extractor) (i : nat),
        reachable (fixtures.cfgOf false false []) (fixtures.boot 1) m ->
        crashed m = false ->
        threads m !! i = Some (Scrape S_lockAccess) ->
        is_Some (stepThread (fixtures.cfgOf false false []) i m)).
Proof.
  intros Hclaim.
  assert (Hreach : reachable (fixtures.cfgOf false false []) (fixtures.boot 1)
                     fixtures.duringPass).
  { apply (runSchedule_reachable _ (fixtures.trigger 0 ++ [1; 1]%nat)).
    vm_compute. reflexivity. }
  specialize (Hclaim fixtures.duringPass 0%nat Hreach eq_refl eq_refl).
  destruct Hclaim as [m' Hstep]. vm_compute in Hstep. discriminate.
Qed.

(** C9: a scrape never waits in [atomicUpdate] for a refresh: it waits
    there only for the updater mutex, whose holder can always move.  At
    the emission it waits exactly while the access mutex is held, by
    another emitting scrape or by a refresh goroutine for the length of
    its pass; once it has the mutex it sends whatever the collectors hold
    at that moment, and for collectors that no refresh has touched since
    start-up that is nothing. *)
Theorem scrape_serves_cache_once_mutex_is_free
    `{Strconv} {E : Type} `{ExtractorAPI E} (cfg : config.Cfg)
    (c : GraphqlCollector E) (w : World) (n : nat) (m : Machine E) :
  reachable cfg (initMachine c w n) m ->
  crashed m = false ->
  (forall i pc,
      threads m !! i = Some (Scrape pc) ->
      match pc with
      | S_lockUpdater => stepThread cfg i m = None <-> updaterMu (coll m) = true
      | S_lockAccess => stepThread cfg i m = None <-> accessMu (coll m) = true
      | S_emit =>
          exists m', stepThread cfg i m = Some m'
                     /\ sink m' = sink m ++ [collectorsOf (cachedQuerySet (coll m)) ≫= prom.Collect]
      | S_done => stepThread cfg i m = None
      | _ => is_Some (stepThread cfg i m)
      end)
  /\ (updaterMu (coll m) = true ->
      exists j t, threads m !! j = Some t /\ holdsUpdaterMu t = true
                  /\ is_Some (stepThread cfg j m))
  /\ (accessMu (coll m) = true ->
      exists j t, threads m !! j = Some t /\ holdsAccessMu t = true
                  /\ is_Some (stepThread cfg j m))
  /\ (forall c0 l, newGraphqlCollector cfg = Returns (c0, l) -> (emit c0).1.2 = []).
Proof.
  intros Hreach Hcr. pose proof (reachable_Inv cfg c w n m Hreach) as [Hu Ha _ _ _].
  unfold count in *. split; [|split; [|split]].
  - intros i pc Hi. unfold stepThread. rewrite Hcr, Hi.
    destruct pc; simpl; eauto.
    + destruct (updaterMu (coll m)); split; congruence.
    + destruct start; eauto.
    + destruct (accessMu (coll m)); split; congruence.
    + destruct (emit_spec (coll m)) as (_ & Hout & _).
      destruct (emit (coll m)) as [[c' out] l]. simpl in Hout. subst out.
      eexists. split; reflexivity.
  - intros Hmu. rewrite Hmu in Hu.
    destruct (tally_pos holdsUpdaterMu (threads m)) as (j & t & Hj & Ht);
      [rewrite Hu; simpl; lia|].
    exists j, t. repeat split; [exact Hj|exact Ht|]. eapply holder_moves; eauto.
  - intros Hmu. rewrite Hmu in Ha.
    destruct (tally_pos holdsAccessMu (threads m)) as (j & t & Hj & Ht);
      [rewrite Ha; simpl; lia|].
    exists j, t. repeat split; [exact Hj|exact Ht|]. eapply holder_moves; eauto.
  - intros c0 l Hnew. destruct (emit_spec c0) as (_ & -> & _).
    apply bind_nil_Forall. eapply compiled_collectors_empty. exact Hnew.
Qed.

Lemma scrape_serves_cache_once_mutex_is_free_witness :
  threads fixtures.duringPass = [Scrape S_lockAccess; Refresh T_pass]
  /\ accessMu (coll fixtures.duringPass) = true
  /\ stepThread (fixtures.cfgOf false false []) 0 fixtures.duringPass = None
  /\ is_Some (stepThread (fixtures.cfgOf false false []) 1 fixtures.duringPass).
Proof.
  assert (Hreach : reachable (fixtures.cfgOf false false []) (fixtures.boot 1)
                     fixtures.duringPass).
  { apply (runSchedule_reachable _ (fixtures.trigger 0 ++ [1; 1]%nat)).
    vm_compute. reflexivity. }
  destruct (scrape_serves_cache_once_mutex_is_free (fixtures.cfgOf false false [])
              (fixtures.collectorOf [fixtures.stockQuery] 0) fixtures.flakyWorld 1
              fixtures.duringPass Hreach eq_refl) as (Hscrape & _ & _ & _).
  split; [vm_compute; reflexivity|].
  split; [vm_compute; reflexivity|].
  split.
  - apply (Hscrape 0%nat S_lockAccess); vm_compute; reflexivity.
  - vm_compute. eauto.
Defined.

(** * Further properties *)

(** ** What a pass does to the children of a collector *)

Section FeedFacts.

Context `{Strconv}.


Lemma callbackFunc_empty c labels : callbackFunc c "" labels = (c, []).
Proof. reflexivity. Qed.




End FeedFacts.


(** ** The compiled set keeps its shape *)

Lemma Forall2_trans_with {A} (R : A -> A -> Prop) :
  (forall x y z, R x y -> R y z -> R x z) ->
  forall l1 l2 l3, Forall2 R l1 l2 -> Forall2 R l2 l3 -> Forall2 R l1 l3.
Proof.
  intros Htrans l1 l2 l3 H12. revert l3.
  induction H12 as [|x y l1 l2 Hxy _ IH]; intros l3 H23; inversion H23; subst;
    constructor; eauto.
Qed.

Lemma Forall2_refl_with {A} (R : A -> A -> Prop) :
  (forall x, R x x) -> forall l, Forall2 R l l.
Proof. intros Hrefl l. induction l; constructor; auto. Qed.

Lemma sameKind_refl c : sameKind c c.
Proof. destruct c; simpl; auto. Qed.

Lemma sameKind_trans c1 c2 c3 : sameKind c1 c2 -> sameKind c2 c3 -> sameKind c1 c3.
Proof.
  destruct c1, c2, c3; simpl; try tauto; intros [-> ->] [-> ->]; auto.
Qed.

Section ShapeFacts.

Context `{Strconv} {E : Type} `{ExtractorAPI E}.
Variable cfg : config.Cfg.

Lemma sameMetric_refl (m : Metric E) : sameMetric m m.
Proof. repeat split. apply sameKind_refl. Qed.

Lemma sameMetric_trans (m1 m2 m3 : Metric E) :
  sameMetric m1 m2 -> sameMetric m2 m3 -> sameMetric m1 m3.
Proof.
  intros (Hc & He & Hk) (Hc' & He' & Hk'). repeat split; try congruence.
  eapply sameKind_trans; eassumption.
Qed.

Lemma sameQuerySet_refl (q : QuerySet E) : sameQuerySet q q.
Proof. split; [reflexivity|]. apply Forall2_refl_with, sameMetric_refl. Qed.

Lemma sameQuerySet_trans (q1 q2 q3 : QuerySet E) :
  sameQuerySet q1 q2 -> sameQuerySet q2 q3 -> sameQuerySet q1 q3.
Proof.
  intros [Hq Hm] [Hq' Hm']. split; [congruence|].
  eapply (Forall2_trans_with _ sameMetric_trans); eassumption.
Qed.

Lemma callbackFunc_sameKind c value labels : sameKind c (callbackFunc c value labels).1.
Proof.
  unfold callbackFunc. destruct (String.eqb value ""); [apply sameKind_refl|].
  destruct c; simpl; auto; destruct (ParseFloat value); simpl; auto.
Qed.

Lemma feed_sameKind pairs c : sameKind c (feed c pairs).1.
Proof.
  revert c. induction pairs as [|[value labels] pairs IH]; intros c; simpl.
  - apply sameKind_refl.
  - pose proof (callbackFunc_sameKind c value labels) as Hc.
    destruct (callbackFunc c value labels) as [c1 l1]. specialize (IH c1).
    destruct (feed c1 pairs) as [c2 l2]. simpl in *.
    eapply sameKind_trans; eassumption.
Qed.

Lemma extractAll_sameMetric data (ms : list (Metric E)) :
  Forall2 sameMetric ms (extractAll data ms).1.
Proof.
  induction ms as [|m ms IH]; simpl; [constructor|].
  unfold extractInto.
  pose proof (feed_sameKind (ExtractMetrics (Extractor m) data) (Collector m)) as Hm.
  destruct (feed (Collector m) _) as [c l1].
  destruct (extractAll data ms) as [ms' l2]. simpl in *.
  constructor; [repeat split; exact Hm|exact IH].
Qed.

Lemma queryStep_sameQuerySet (q : QuerySet E) s : sameQuerySet q (queryStep cfg q s).1.1.
Proof.
  unfold queryStep. destruct (GraphqlQuery (Query q) (world s)) as [[msg|body] w].
  - destruct (config.FailFast cfg); apply sameQuerySet_refl.
  - destruct (Unmarshal body (gql s)) as [g [e|]].
    + destruct (config.FailFast cfg); apply sameQuerySet_refl.
    + destruct g as [[[data|]]|]; try apply sameQuerySet_refl.
      simpl. pose proof (extractAll_sameMetric data (Metrics q)) as Hq.
      destruct (extractAll data (Metrics q)) as [ms l']. split; [reflexivity|exact Hq].
Qed.

Lemma passLoop_sameQuerySet (qs : list (QuerySet E)) s :
  Forall2 sameQuerySet qs (passLoop cfg qs s).1.1.
Proof.
  revert s. induction qs as [|q qs IH]; intros s; [constructor|].
  simpl passLoop. pose proof (queryStep_sameQuerySet q s) as Hq.
  destruct (queryStep cfg q s) as [[q' s'] ctl]. simpl in Hq.
  destruct ctl.
  - specialize (IH s'). destruct (passLoop cfg qs s') as [[qs' s''] ctl'].
    constructor; assumption.
  - constructor; [assumption|apply Forall2_refl_with, sameQuerySet_refl].
  - constructor; [assumption|apply Forall2_refl_with, sameQuerySet_refl].
Qed.

Lemma emit_sameQuerySet (c : GraphqlCollector E) :
  Forall2 sameQuerySet (cachedQuerySet c) (cachedQuerySet (emit c).1.1).
Proof.
  destruct (emit_spec c) as (-> & _ & _). unfold mapCollectors.
  induction (cachedQuerySet c) as [|q qs IH]; [constructor|].
  rewrite fmap_cons. constructor; [|exact IH].
  split; [reflexivity|]. simpl.
  induction (Metrics q) as [|m ms IHm]; [constructor|].
  rewrite fmap_cons. constructor; [|exact IHm].
  repeat split. destruct (Collector m); simpl; auto.
Qed.

Lemma stampCache_fields (c : GraphqlCollector E) pass :
  cachedQuerySet (stampCache cfg c pass).1.1.1 = pass.1.1
  /\ graphqlURL (stampCache cfg c pass).1.1.1 = graphqlURL c
  /\ (stampCache cfg c pass).1.1.2 = world pass.1.2
  /\ (cachedAt (stampCache cfg c pass).1.1.1 = cachedAt c
      \/ cachedAt (stampCache cfg c pass).1.1.1 = Now (world pass.1.2)).
Proof.
  destruct pass as [[qs s] [|e|]]; simpl; repeat split; auto.
  destruct (config.ExtendCacheOnError cfg); auto.
Qed.

(** What a step of a thread does to the cache and the world: nothing,
    unless it is the emission loop of a scrape or the pass of a refresh. *)
Lemma stepThread_cache i (m m' : Machine E) :
  stepThread cfg i m = Some m' ->
  (cachedQuerySet (coll m') = cachedQuerySet (coll m)
   /\ cachedAt (coll m') = cachedAt (coll m)
   /\ graphqlURL (coll m') = graphqlURL (coll m)
   /\ env m' = env m)
  \/ (threads m !! i = Some (Scrape S_emit)
      /\ coll m' = (emit (coll m)).1.1 /\ env m' = env m)
  \/ (threads m !! i = Some (Refresh T_pass)
      /\ coll m' = (stampCache cfg (coll m) (getMetrics cfg (coll m) (env m))).1.1.1
      /\ env m' = (stampCache cfg (coll m) (getMetrics cfg (coll m) (env m))).1.1.2).
Proof.
  intros Hstep. unfold stepThread in Hstep.
  destruct (crashed m); [discriminate|].
  destruct (threads m !! i) as [[pc|pc]|] eqn:Hi; [| |discriminate].
  - destruct pc; simpl in Hstep;
      try (injection Hstep as <-; left; repeat split; reflexivity);
      try discriminate.
    + destruct (updaterMu (coll m)); [discriminate|].
      injection Hstep as <-. left. repeat split.
    + destruct start; injection Hstep as <-; left; repeat split.
    + destruct (accessMu (coll m)); [discriminate|].
      injection Hstep as <-. left. repeat split.
    + right. left. destruct (emit (coll m)) as [[c' out] l].
      injection Hstep as <-. repeat split.
  - destruct pc; simpl in Hstep;
      try (injection Hstep as <-; left; repeat split; reflexivity);
      try discriminate.
    + destruct (expired cfg (coll m) (env m)); injection Hstep as <-; left; repeat split.
    + destruct (accessMu (coll m)); [discriminate|].
      injection Hstep as <-. left. repeat split.
    + right. right.
      destruct (stampCache cfg (coll m) (getMetrics cfg (coll m) (env m)))
        as [[[c' w'] l] [|e|]]; injection Hstep as <-; repeat split.
    + destruct (updaterMu (coll m)); [discriminate|].
      injection Hstep as <-. left. repeat split.
Qed.

Lemma step_sameQuerySet (m m' : Machine E) :
  step cfg m m' ->
  Forall2 sameQuerySet (cachedQuerySet (coll m)) (cachedQuerySet (coll m'))
  /\ graphqlURL (coll m') = graphqlURL (coll m).
Proof.
  intros Hstep. destruct Hstep as [i m m' Hstep|d m Hd|m]; simpl;
    try (split; [apply Forall2_refl_with, sameQuerySet_refl|reflexivity]).
  destruct (stepThread_cache i m m' Hstep)
    as [(-> & _ & -> & _)|[(_ & -> & _)|(_ & -> & _)]].
  - split; [apply Forall2_refl_with, sameQuerySet_refl|reflexivity].
  - split; [apply emit_sameQuerySet|].
    unfold emit. destruct (collectQuerySets _) as [[qs out] l]. reflexivity.
  - destruct (stampCache_fields (coll m) (getMetrics cfg (coll m) (env m)))
      as (-> & -> & _). split; [apply passLoop_sameQuerySet|reflexivity].
Qed.

End ShapeFacts.

(** X2: neither a refresh nor a scrape changes which metrics exist.  In
    every state the process reaches, the cached query sets are those
    compiled at start-up, in order, with the same query text and, metric
    by metric, the same configuration, extractor, collector type, options
    and label names; only the children of the collectors differ. *)
Theorem compiled_set_keeps_its_shape
    `{Strconv} {E : Type} `{ExtractorAPI E} (cfg : config.Cfg)
    (c : GraphqlCollector E) (w : World) (n : nat) (m : Machine E) :
  reachable cfg (initMachine c w n) m ->
  Forall2 sameQuerySet (cachedQuerySet c) (cachedQuerySet (coll m))
  /\ graphqlURL (coll m) = graphqlURL c.
Proof.
  revert m. apply (rtc_ind_r (λ m, Forall2 sameQuerySet (cachedQuerySet c)
                                     (cachedQuerySet (coll m))
                                   /\ graphqlURL (coll m) = graphqlURL c)).
  - split; [apply Forall2_refl_with, sameQuerySet_refl|reflexivity].
  - intros m m' _ Hstep [IH Hurl].
    destruct (step_sameQuerySet cfg m m' Hstep) as [Hs Hu].
    split; [|congruence].
    eapply (Forall2_trans_with _ sameQuerySet_trans); eassumption.
Qed.

Lemma compiled_set_keeps_its_shape_witness :
  Forall2 sameQuerySet [fixtures.stockQuery] (cachedQuerySet (coll runs.afterRefresh))
  /\ collectorsOf (cachedQuerySet (coll runs.afterRefresh))
     = [prom.GaugeVec (fixtures.opts "stock") [] {[ [] := 7%float ]}].
Proof.
  split; [|vm_compute; reflexivity].
  refine (proj1 (compiled_set_keeps_its_shape (fixtures.cfgOf false false [])
                   (fixtures.collectorOf [fixtures.stockQuery] 0) fixtures.flakyWorld 1
                   runs.afterRefresh _)).
  apply (runSchedule_reachable _
           (fixtures.trigger 0 ++ replicate 7 1%nat ++ replicate 3 0%nat)).
  vm_compute. reflexivity.
Defined.

(** ** Mutual exclusion and emission *)

Lemma tally_two P (l : list Thread) i j x y :
  l !! i = Some x -> l !! j = Some y -> i <> j ->
  (Nat.b2n (P x) + Nat.b2n (P y) <= tally P l)%nat.
Proof.
  revert i j. induction l as [|a l IH]; intros [|i] [|j] Hi Hj Hne; simplify_eq/=.
  - pose proof (tally_lookup P l j y Hj). unfold tally in *. simpl. lia.
  - pose proof (tally_lookup P l i x Hi). unfold tally in *. simpl. lia.
  - assert (Hij : i <> j) by congruence.
    specialize (IH i j Hi Hj Hij). unfold tally in *. simpl. lia.
Qed.

(** X3: the collectors are never read and written at once.  In every
    state the process reaches, at most one thread is inside a section
    guarded by the access mutex (the emission loop of a scrape, the pass
    of a refresh), and at most one inside a section guarded by the
    updater mutex; a mutex is locked exactly when some thread is inside. *)
Theorem critical_sections_exclude
    `{Strconv} {E : Type} `{ExtractorAPI E} (cfg : config.Cfg)
    (c : GraphqlCollector E) (w : World) (n : nat) (m : Machine E) :
  reachable cfg (initMachine c w n) m ->
  (forall i j ti tj,
      threads m !! i = Some ti -> threads m !! j = Some tj ->
      holdsAccessMu ti = true -> holdsAccessMu tj = true -> i = j)
  /\ (forall i j ti tj,
      threads m !! i = Some ti -> threads m !! j = Some tj ->
      holdsUpdaterMu ti = true -> holdsUpdaterMu tj = true -> i = j)
  /\ (accessMu (coll m) = true <-> Exists (λ t, holdsAccessMu t = true) (threads m))
  /\ (updaterMu (coll m) = true <-> Exists (λ t, holdsUpdaterMu t = true) (threads m)).
Proof.
  intros Hreach. pose proof (reachable_Inv cfg c w n m Hreach) as [Hu Ha _ _ _].
  unfold count in *.
  assert (Hexcl : forall P b, tally P (threads m) = Nat.b2n b ->
            forall i j ti tj,
              threads m !! i = Some ti -> threads m !! j = Some tj ->
              P ti = true -> P tj = true -> i = j).
  { intros P b Hb i j ti tj Hi Hj Hti Htj.
    destruct (decide (i = j)) as [|Hne]; [assumption|].
    pose proof (tally_two P (threads m) i j ti tj Hi Hj Hne) as Htwo.
    rewrite Hti, Htj, Hb in Htwo. destruct b; simpl in Htwo; lia. }
  assert (Hiff : forall P b, tally P (threads m) = Nat.b2n b ->
            (b = true <-> Exists (λ t, P t = true) (threads m))).
  { intros P b Hb. split.
    - intros ->. destruct (tally_pos P (threads m)) as (i & t & Hi & Ht);
        [rewrite Hb; simpl; lia|].
      apply Exists_exists. exists t. split; [|exact Ht].
      eapply list_elem_of_lookup_2. exact Hi.
    - intros Hex. apply Exists_exists in Hex as (t & Hin & Ht).
      apply list_elem_of_lookup in Hin as [i Hi].
      pose proof (tally_lookup P (threads m) i t Hi) as Hge.
      rewrite Ht, Hb in Hge. destruct b; [reflexivity|simpl in Hge; lia]. }
  split; [exact (Hexcl _ _ Ha)|]. split; [exact (Hexcl _ _ Hu)|].
  split; [exact (Hiff _ _ Ha)|exact (Hiff _ _ Hu)].
Qed.

Lemma critical_sections_exclude_witness :
  threads fixtures.duringPass !! 1%nat = Some (Refresh T_pass)
  /\ accessMu (coll fixtures.duringPass) = true
  /\ forall j tj, threads fixtures.duringPass !! j = Some tj ->
                  holdsAccessMu tj = true -> 1%nat = j.
Proof.
  assert (Hreach : reachable (fixtures.cfgOf false false []) (fixtures.boot 1)
                     fixtures.duringPass).
  { apply (runSchedule_reachable _ (fixtures.trigger 0 ++ [1; 1]%nat)).
    vm_compute. reflexivity. }
  destruct (critical_sections_exclude (fixtures.cfgOf false false [])
              (fixtures.collectorOf [fixtures.stockQuery] 0) fixtures.flakyWorld 1
              fixtures.duringPass Hreach) as (Hexcl & _ & _ & _).
  split; [reflexivity|]. split; [reflexivity|].
  intros j tj Hj Htj. apply (Hexcl 1%nat j (Refresh T_pass) tj); auto.
Defined.

(** ** The queries of a pass, and its clock *)

Lemma queriesSent_app l1 l2 : queriesSent (l1 ++ l2) = queriesSent l1 ++ queriesSent l2.
Proof. unfold queriesSent. apply omap_app. Qed.

Section QueryFacts.

Context `{Strconv} {E : Type} `{ExtractorAPI E}.
Variable cfg : config.Cfg.

Lemma feed_no_query pairs c : queriesSent (feed c pairs).2 = [].
Proof.
  revert c. induction pairs as [|[value labels] pairs IH]; intros c; simpl; [reflexivity|].
  assert (Hc : queriesSent (callbackFunc c value labels).2 = []).
  { unfold callbackFunc. destruct (String.eqb value ""); [reflexivity|].
    destruct c; simpl; try reflexivity;
      destruct (ParseFloat value) as [f [e|]]; reflexivity. }
  destruct (callbackFunc c value labels) as [c1 l1]. specialize (IH c1).
  destruct (feed c1 pairs) as [c2 l2]. simpl in *.
  rewrite queriesSent_app, Hc, IH. reflexivity.
Qed.

Lemma extractAll_no_query data (ms : list (Metric E)) :
  queriesSent (extractAll data ms).2 = [].
Proof.
  induction ms as [|m ms IH]; simpl; [reflexivity|].
  unfold extractInto.
  pose proof (feed_no_query (ExtractMetrics (Extractor m) data) (Collector m)) as Hm.
  destruct (feed (Collector m) _) as [c l1].
  destruct (extractAll data ms) as [ms' l2]. simpl in *.
  rewrite queriesSent_app, Hm, IH. reflexivity.
Qed.

(** One iteration sends its query, once, whatever comes back; without
    fail-fast it does not return an error. *)
Lemma queryStep_effects (q : QuerySet E) s :
  world (queryStep cfg q s).1.2 = (GraphqlQuery (Query q) (world s)).2
  /\ queriesSent (logged (queryStep cfg q s).1.2) = queriesSent (logged s) ++ [Query q]
  /\ (config.FailFast cfg = false -> forall e, (queryStep cfg q s).2 <> ReturnErr e).
Proof.
  unfold queryStep. destruct (GraphqlQuery (Query q) (world s)) as [[msg|body] w].
  - destruct (config.FailFast cfg); simpl; rewrite ?queriesSent_app; simpl;
      rewrite ?app_nil_r; repeat split; intros; discriminate.
  - destruct (Unmarshal body (gql s)) as [g [e|]].
    + destruct (config.FailFast cfg); simpl; rewrite ?queriesSent_app; simpl;
        rewrite ?app_nil_r; repeat split; intros; discriminate.
    + destruct g as [[[data|]]|]; simpl; rewrite ?queriesSent_app; simpl;
        try (repeat split; intros; discriminate).
      pose proof (extractAll_no_query data (Metrics q)) as Hq.
      destruct (extractAll data (Metrics q)) as [ms l']. simpl in *.
      rewrite !queriesSent_app, Hq. simpl. rewrite app_nil_r.
      repeat split; intros; discriminate.
Qed.

Lemma passLoop_queries (qs : list (QuerySet E)) s :
  exists k,
    (k <= length qs)%nat
    /\ queriesSent (logged (passLoop cfg qs s).1.2)
       = queriesSent (logged s) ++ take k (Query <$> qs)
    /\ calls (world (passLoop cfg qs s).1.2) = (calls (world s) + k)%nat
    /\ ((passLoop cfg qs s).2 = Continue -> k = length qs)
    /\ (config.FailFast cfg = false -> forall e, (passLoop cfg qs s).2 <> ReturnErr e).
Proof.
  revert s. induction qs as [|q qs IH]; intros s.
  - exists 0%nat. simpl. rewrite app_nil_r. repeat split; auto; try lia; try discriminate.
  - simpl passLoop. destruct (queryStep_effects q s) as (Hw & Hl & Hff).
    destruct (queryStep cfg q s) as [[q' s'] ctl]. simpl in Hw, Hl, Hff.
    assert (Hcalls : calls (world s') = S (calls (world s))) by (rewrite Hw; reflexivity).
    destruct ctl.
    + destruct (IH s') as (k & Hk & Hlog & Hc & Hall & Hne).
      destruct (passLoop cfg qs s') as [[qs' s''] ctl']. simpl in *.
      exists (S k). rewrite Hlog, Hl, Hc, Hcalls, <- app_assoc. simpl.
      repeat split; auto; try lia; intros Hctl; rewrite (Hall Hctl); reflexivity.
    + exists 1%nat. simpl. rewrite Hl, Hcalls. simpl.
      repeat split; auto; try lia; try discriminate; destruct qs; reflexivity.
    + exists 1%nat. simpl. rewrite Hl, Hcalls. simpl.
      repeat split; auto; try lia; try discriminate; destruct qs; reflexivity.
Qed.

(** A pass leaves the oracle alone and, when no exchange takes negative
    time, does not set the clock back. *)
Lemma passLoop_clock (qs : list (QuerySet E)) s :
  remote (world (passLoop cfg qs s).1.2) = remote (world s)
  /\ ((forall n q, 0 <= elapsed (remote (world s) n q)) ->
      clock (world s) <= clock (world (passLoop cfg qs s).1.2)).
Proof.
  revert s. induction qs as [|q qs IH]; intros s; [simpl; split; [reflexivity|lia]|].
  simpl passLoop. destruct (queryStep_effects q s) as (Hw & _ & _).
  destruct (queryStep cfg q s) as [[q' s'] ctl]. simpl in Hw.
  assert (Hstep : remote (world s') = remote (world s)
                  /\ ((forall n q, 0 <= elapsed (remote (world s) n q)) ->
                      clock (world s) <= clock (world s'))).
  { rewrite Hw. simpl. split; [reflexivity|].
    intros Hpos. specialize (Hpos (calls (world s)) (Query q)). lia. }
  destruct Hstep as [Hr Hc]. destruct ctl; simpl; try (split; assumption).
  destruct (IH s') as [Hr' Hc'].
  destruct (passLoop cfg qs s') as [[qs' s''] ctl']. simpl in *.
  split; [congruence|]. intros Hpos.
  specialize (Hc Hpos). rewrite Hr in Hc'. specialize (Hc' Hpos). lia.
Qed.

End QueryFacts.

Lemma getMetrics_returns_nil_without_fail_fast
    `{Strconv} {E : Type} `{ExtractorAPI E} (cfg : config.Cfg)
    (c : GraphqlCollector E) (w : World) :
  config.FailFast cfg = false -> forall e, (getMetrics cfg c w).2 <> ReturnErr e.
Proof.
  intros Hff. unfold getMetrics.
  destruct (passLoop_queries cfg (cachedQuerySet c) {| gql := None; world := w; logged := [] |})
    as (k & _ & _ & _ & _ & Hne).
  exact (Hne Hff).
Qed.

(** X4: a pass sends the queries of the cached query sets in order, each
    at most once, and nothing else: what it has sent is a prefix of the
    list of their query texts, one call to the backend per query.  It is
    the whole list when the pass runs to its end, and without fail-fast a
    pass never returns an error. *)
Theorem pass_queries_in_order
    `{Strconv} {E : Type} `{ExtractorAPI E} (cfg : config.Cfg)
    (c : GraphqlCollector E) (w : World) :
  exists k,
    (k <= length (cachedQuerySet c))%nat
    /\ queriesSent (logged (getMetrics cfg c w).1.2) = take k (Query <$> cachedQuerySet c)
    /\ calls (world (getMetrics cfg c w).1.2) = (calls w + k)%nat
    /\ ((getMetrics cfg c w).2 = Continue -> k = length (cachedQuerySet c))
    /\ (config.FailFast cfg = false -> forall e, (getMetrics cfg c w).2 <> ReturnErr e).
Proof.
  unfold getMetrics.
  destruct (passLoop_queries cfg (cachedQuerySet c) {| gql := None; world := w; logged := [] |})
    as (k & Hk & Hlog & Hcalls & Hall & Hne).
  exists k. repeat split; assumption.
Qed.

(** ** The cache timestamp across the life of the process *)

Section ClockFacts.

Context `{Strconv} {E : Type} `{ExtractorAPI E}.
Variable cfg : config.Cfg.

Lemma step_wellTimed (m m' : Machine E) :
  wellTimed m -> step cfg m m' ->
  wellTimed m' /\ cachedAt (coll m) <= cachedAt (coll m').
Proof.
  intros [Hat Hpos] Hstep. destruct Hstep as [i m m' Hstep|d m Hd|m]; simpl.
  - destruct (stepThread_cache cfg i m m' Hstep)
      as [(_ & Hc & _ & He)|[(_ & Hc & He)|(_ & Hc & He)]].
    + unfold wellTimed. rewrite Hc, He. repeat split; auto. lia.
    + destruct (emit_spec (coll m)) as (_ & _ & Hsame).
      unfold wellTimed. rewrite Hc, He, Hsame. repeat split; auto. lia.
    + destruct (stampCache_fields cfg (coll m) (getMetrics cfg (coll m) (env m)))
        as (_ & _ & Hw & Hstamp).
      destruct (passLoop_clock cfg (cachedQuerySet (coll m))
                  {| gql := None; world := env m; logged := [] |}) as [Hr Hclock].
      fold (getMetrics cfg (coll m) (env m)) in Hr, Hclock. simpl in Hr, Hclock.
      specialize (Hclock Hpos).
      unfold wellTimed. rewrite Hc, He, Hw. unfold Now in Hstamp.
      destruct Hstamp as [-> | ->]; (split; [split; [lia|rewrite Hr; exact Hpos]|lia]).
  - unfold wellTimed. simpl. repeat split; auto; lia.
  - unfold wellTimed. simpl. repeat split; auto; lia.
Qed.

End ClockFacts.

(** X5: the last-refresh timestamp only moves forward.  If the cache is
    not stamped in the future and no exchange with the backend takes
    negative time, then along every execution of the process the
    timestamp never decreases and never runs ahead of the clock. *)
Theorem cache_timestamp_never_goes_back
    `{Strconv} {E : Type} `{ExtractorAPI E} (cfg : config.Cfg) (m m' : Machine E) :
  wellTimed m ->
  reachable cfg m m' ->
  cachedAt (coll m) <= cachedAt (coll m') /\ cachedAt (coll m') <= clock (env m').
Proof.
  intros Hwell Hreach.
  assert (Hall : cachedAt (coll m) <= cachedAt (coll m')
                 /\ cachedAt (coll m') <= clock (env m')
                 /\ wellTimed m').
  { revert m' Hreach.
    apply (rtc_ind_r (λ m', cachedAt (coll m) <= cachedAt (coll m')
                            /\ cachedAt (coll m') <= clock (env m')
                            /\ wellTimed m')).
    - destruct Hwell as [Hat Hpos]. repeat split; auto; lia.
    - intros m1 m2 _ Hstep (Hle & _ & Hwell1).
      destruct (step_wellTimed cfg m1 m2 Hwell1 Hstep) as [[Hat Hpos] Hmono].
      repeat split; auto; lia. }
  destruct Hall as (Hle & Hat & _). split; assumption.
Qed.

Lemma cache_timestamp_never_goes_back_witness :
  cachedAt (coll (fixtures.boot 1)) = 0
  /\ cachedAt (coll runs.afterRefresh) = 1001
  /\ 0 <= 1001 <= clock (env runs.afterRefresh).
Proof.
  split; [reflexivity|]. split; [vm_compute; reflexivity|].
  assert (Hstamp : cachedAt (coll runs.afterRefresh) = 1001) by (vm_compute; reflexivity).
  rewrite <- Hstamp.
  change 0 with (cachedAt (coll (fixtures.boot 1))).
  apply (cache_timestamp_never_goes_back (fixtures.cfgOf false false [])).
  - split; [vm_compute; discriminate|].
    intros [|n] q; vm_compute; discriminate.
  - apply (runSchedule_reachable _
             (fixtures.trigger 0 ++ replicate 7 1%nat ++ replicate 3 0%nat)).
    vm_compute. reflexivity.
Defined.

(** ** The test on the cache age *)

(** X6: with the timestamp not in the future and the clock within int64,
    the cache is refreshed exactly when its age exceeds [CacheExpire]
    (an age equal to it does not count); and while it does not,
    [updateMetrics] returns nil without sending a query or touching the
    collector. *)
Theorem fresh_cache_is_left_alone
    `{Strconv} {E : Type} `{ExtractorAPI E} (cfg : config.Cfg)
    (c : GraphqlCollector E) (w : World) :
  0 <= cachedAt c <= Now w ->
  Now w < 2 ^ 63 ->
  (expired cfg c w = true <-> config.CacheExpire cfg < Now w - cachedAt c)
  /\ (Now w - cachedAt c <= config.CacheExpire cfg ->
      updateMetrics cfg c w = (c, w, [], Continue)).
Proof.
  intros Hat Hnow.
  assert (Hexp : expired cfg c w = true <-> config.CacheExpire cfg < Now w - cachedAt c).
  { unfold expired, sub64. rewrite wrap64_small by lia. lia. }
  split; [exact Hexp|]. intros Hfresh. unfold updateMetrics.
  destruct (expired cfg c w) eqn:He; [|reflexivity].
  apply proj1 in Hexp. specialize (Hexp eq_refl). lia.
Qed.

Lemma fresh_cache_is_left_alone_witness :
  updateMetrics (fixtures.cfgOf true false []) replies.refreshed (replies.at_ 1010)
  = (replies.refreshed, replies.at_ 1010, [], Continue)
  /\ expired (fixtures.cfgOf true false []) replies.refreshed (replies.at_ 1011) = true.
Proof.
  destruct (fresh_cache_is_left_alone (fixtures.cfgOf true false []) replies.refreshed
              (replies.at_ 1010)) as [_ Hfresh];
    [vm_compute; split; discriminate | reflexivity |].
  split; [apply Hfresh; vm_compute; discriminate|].
  vm_compute. reflexivity.
Defined.

(** ** Fail-fast and the extension of the cache *)

Section ExtendFacts.

Context `{Strconv} {E : Type} `{ExtractorAPI E}.
Variable cfg : config.Cfg.

Lemma passLoop_withExtend b (qs : list (QuerySet E)) s :
  passLoop (withExtendCacheOnError cfg b) qs s = passLoop cfg qs s.
Proof.
  revert s. induction qs as [|q qs IH]; intros s; [reflexivity|].
  simpl passLoop. change (queryStep (withExtendCacheOnError cfg b) q s)
    with (queryStep cfg q s).
  destruct (queryStep cfg q s) as [[q' s'] [|e|]]; try reflexivity; rewrite IH; reflexivity.
Qed.

End ExtendFacts.

(** X7: [ExtendCacheOnError] only matters under fail-fast.  Without
    fail-fast a pass logs its failures and returns nil, so
    [updateMetrics] never returns an error, behaves the same whatever
    [ExtendCacheOnError] says, and stamps the cache after every pass,
    failed queries or not. *)
Theorem extend_needs_fail_fast
    `{Strconv} {E : Type} `{ExtractorAPI E} (cfg : config.Cfg)
    (c : GraphqlCollector E) (w : World) :
  config.FailFast cfg = false ->
  (forall b, updateMetrics (withExtendCacheOnError cfg b) c w = updateMetrics cfg c w)
  /\ (forall e, (updateMetrics cfg c w).2 <> ReturnErr e)
  /\ (expired cfg c w = true ->
      (updateMetrics cfg c w).2 = Continue ->
      cachedAt (updateMetrics cfg c w).1.1.1 = Now (updateMetrics cfg c w).1.1.2).
Proof.
  intros Hff.
  pose proof (getMetrics_returns_nil_without_fail_fast cfg c w Hff) as Hne.
  split; [|split].
  - intros b. unfold updateMetrics.
    change (expired (withExtendCacheOnError cfg b) c w) with (expired cfg c w).
    destruct (expired cfg c w); [|reflexivity].
    unfold getMetrics. rewrite passLoop_withExtend.
    fold (getMetrics cfg c w). unfold stampCache.
    destruct (getMetrics cfg c w) as [[qs s] [|e|]]; try reflexivity.
    exfalso. exact (Hne e eq_refl).
  - intros e. unfold updateMetrics. destruct (expired cfg c w); [|discriminate].
    unfold stampCache. destruct (getMetrics cfg c w) as [[qs s] [|e'|]]; simpl;
      try discriminate. exfalso. exact (Hne e' eq_refl).
  - intros Hexp. unfold updateMetrics. rewrite Hexp. unfold stampCache.
    destruct (getMetrics cfg c w) as [[qs s] [|e'|]]; simpl; try discriminate.
    reflexivity.
Qed.

Lemma extend_needs_fail_fast_witness :
  let r := updateMetrics (fixtures.cfgOf false true [])
             (fixtures.collectorOf [fixtures.ordersQuery] 0) fixtures.failingWorld in
  r = updateMetrics (fixtures.cfgOf false false [])
        (fixtures.collectorOf [fixtures.ordersQuery] 0) fixtures.failingWorld
  /\ r.2 = Continue
  /\ cachedAt r.1.1.1 = 1030.
Proof.
  intros r.
  destruct (extend_needs_fail_fast (fixtures.cfgOf false false [])
              (fixtures.collectorOf [fixtures.ordersQuery] 0) fixtures.failingWorld eq_refl)
    as (Hsame & _ & _).
  split; [exact (Hsame true)|]. split; vm_compute; reflexivity.
Defined.

(** ** Responses without data *)

(** X8: a response whose JSON text is [null] decodes without error and
    sets [gql] to nil, so reading [gql.Data] panics: the pass ends there
    whatever [FailFast] says, the query sets after it are not queried, the
    cache is not stamped, and in the process the panic of the refresh
    goroutine leaves no thread able to move. *)
Theorem null_response_panics
    `{Strconv} {E : Type} `{ExtractorAPI E} (cfg : config.Cfg)
    (before after before' : list (QuerySet E)) (q : QuerySet E) (s0 s1 : PassState) :
  passLoop cfg before s0 = (before', s1, Continue) ->
  (GraphqlQuery (Query q) (world s1)).1 = QueryOk (Document json.Null) ->
  (exists s2,
      passLoop cfg (before ++ q :: after) s0 = (before' ++ q :: after, s2, Panic)
      /\ gql s2 = None
      /\ calls (world s2) = S (calls (world s1)))
  /\ (forall (c : GraphqlCollector E) (w : World),
         cachedQuerySet c = before ++ q :: after ->
         s0 = {| gql := None; world := w; logged := [] |} ->
         expired cfg c w = true ->
         (updateMetrics cfg c w).2 = Panic
         /\ cachedAt (updateMetrics cfg c w).1.1.1 = cachedAt c)
  /\ (forall (m : Machine E) i,
         crashed m = false ->
         threads m !! i = Some (Refresh T_pass) ->
         cachedQuerySet (coll m) = before ++ q :: after ->
         s0 = {| gql := None; world := env m; logged := [] |} ->
         exists m', stepThread cfg i m = Some m'
                    /\ crashed m' = true
                    /\ forall j, stepThread cfg j m' = None).
Proof.
  intros Hbefore Hnull.
  assert (Hstep : queryStep cfg q s1
                  = (q, {| gql := None; world := (GraphqlQuery (Query q) (world s1)).2;
                           logged := logged s1 ++ [Queried (Query q)] |}, Panic)).
  { unfold queryStep. destruct (GraphqlQuery (Query q) (world s1)) as [res w'].
    simpl in Hnull. subst res. reflexivity. }
  assert (Hpass : passLoop cfg (before ++ q :: after) s0
                  = (before' ++ q :: after,
                     {| gql := None; world := (GraphqlQuery (Query q) (world s1)).2;
                        logged := logged s1 ++ [Queried (Query q)] |}, Panic)).
  { rewrite passLoop_app, Hbefore. simpl. rewrite Hstep. reflexivity. }
  split; [|split].
  - eexists. split; [exact Hpass|]. split; reflexivity.
  - intros c w Hc -> Hexp. unfold updateMetrics, getMetrics. rewrite Hexp, Hc, Hpass.
    split; reflexivity.
  - intros m i Hcr Hi Hc ->. unfold stepThread. rewrite Hcr, Hi. simpl.
    unfold getMetrics. rewrite Hc, Hpass. simpl.
    eexists. split; [reflexivity|]. split; [reflexivity|].
    intros j. unfold stepThread. reflexivity.
Qed.

Lemma null_response_panics_witness :
  (updateMetrics (fixtures.cfgOf false false [])
     (fixtures.collectorOf [fixtures.stockQuery; fixtures.ordersQuery] 0)
     replies.nullWorld).2 = Panic
  /\ calls (updateMetrics (fixtures.cfgOf false false [])
              (fixtures.collectorOf [fixtures.stockQuery; fixtures.ordersQuery] 0)
              replies.nullWorld).1.1.2 = 1%nat.
Proof.
  destruct (null_response_panics (fixtures.cfgOf false false []) []
              [fixtures.ordersQuery] [] fixtures.stockQuery
              (fixtures.startOfPass replies.nullWorld)
              (fixtures.startOfPass replies.nullWorld) eq_refl eq_refl)
    as (_ & Hupdate & _).
  split; [|vm_compute; reflexivity].
  apply (Hupdate (fixtures.collectorOf [fixtures.stockQuery; fixtures.ordersQuery] 0)
           replies.nullWorld); reflexivity.
Defined.

(** ** Start-up *)

Lemma mapM_Returns_total {A B} (f : A -> Run B) (l : list A) :
  Forall (λ a, exists b, f a = Returns b) l -> exists out, mapM f l = Returns out.
Proof.
  induction 1 as [|a l [b Hb] _ [out Hout]]; [exists []; reflexivity|].
  exists (b :: out). simpl. unfold mbind, Run_bind at 1. rewrite Hb.
  unfold Run_bind at 1. rewrite Hout. reflexivity.
Qed.

Section StartupFacts.

Context `{Strconv} {E : Type} `{ExtractorAPI E}.
Variable cfg : config.Cfg.

Lemma newMetric_Returns_iff q m :
  (exists r, newMetric cfg q m = Returns r)
  <-> (NewExtractor (config.LabelPathSeparator cfg) (config.Value m) (config.Labels m)).1
      <> None.
Proof.
  unfold newMetric. destruct (NewExtractor _ _ _) as [[ex|] err]; simpl; split.
  - discriminate.
  - intros _. eexists. reflexivity.
  - intros [r Hr]. discriminate.
  - congruence.
Qed.

Lemma newQuerySet_Returns_iff q :
  (exists r, newQuerySet cfg q = Returns r)
  <-> Forall (λ m, (NewExtractor (config.LabelPathSeparator cfg) (config.Value m)
                      (config.Labels m)).1 <> None) (config.Metrics q).
Proof.
  split.
  - intros [r Hr]. unfold newQuerySet, mbind in Hr.
    destruct (mapM (newMetric cfg q) (config.Metrics q)) as [ms|] eqn:Hms; [|discriminate].
    apply Forall_forall. intros m Hm.
    destruct (mapM_Returns_elem _ _ _ m Hms Hm) as (b & _ & Hb).
    apply (proj1 (newMetric_Returns_iff q m)). eauto.
  - intros Hall.
    destruct (mapM_Returns_total (newMetric cfg q) (config.Metrics q)) as [ms Hms].
    { eapply Forall_impl; [exact Hall|]. intros m Hm.
      exact (proj2 (newMetric_Returns_iff q m) Hm). }
    unfold newQuerySet, mbind. rewrite Hms. eexists. reflexivity.
Qed.

Lemma compiled_metrics_Forall (P : Metric E -> Prop) c l :
  (forall q m cm lm, newMetric cfg q m = Returns (cm, lm) -> P cm) ->
  newGraphqlCollector cfg = Returns (c, l) ->
  Forall (λ qs, Forall P (Metrics qs)) (cachedQuerySet c).
Proof.
  intros HP. unfold newGraphqlCollector, mbind, Run_bind.
  destruct (mapM (newQuerySet cfg) (config.Queries cfg)) as [qs|] eqn:Hqs; [|discriminate].
  intros [= <- <-]. simpl. apply Forall_fmap.
  apply mapM_Returns in Hqs.
  induction Hqs as [|q [cq lq] qs' out Hq Hrest IH]; [constructor|].
  constructor; [|exact IH]. clear IH Hrest. simpl.
  unfold newQuerySet, mbind, Run_bind in Hq.
  destruct (mapM (newMetric cfg q) (config.Metrics q)) as [ms|] eqn:Hms; [|discriminate].
  injection Hq as <- <-. simpl. apply Forall_fmap.
  apply mapM_Returns in Hms.
  induction Hms as [|m [cm lm] ms' out' Hm Hrest IH]; [constructor|].
  constructor; [|exact IH]. simpl. eapply HP. exact Hm.
Qed.

Lemma compiled_queries c l :
  newGraphqlCollector cfg = Returns (c, l) ->
  Query <$> cachedQuerySet c = config.query <$> config.Queries cfg.
Proof.
  unfold newGraphqlCollector, mbind, Run_bind.
  destruct (mapM (newQuerySet cfg) (config.Queries cfg)) as [qs|] eqn:Hqs; [|discriminate].
  intros [= <- <-]. simpl.
  apply mapM_Returns in Hqs.
  induction Hqs as [|q [cq lq] qs' out Hq Hrest IH]; [reflexivity|].
  simpl. apply newQuerySet_Returns in Hq as [-> _]. f_equal. exact IH.
Qed.

End StartupFacts.

(** X9: start-up returns exactly when [NewExtractor] hands back an
    extractor for every configured metric (with or without an error), and
    panics otherwise.  When it returns, there is one query set per
    configured query, in order and with its query text; the cache is
    stamped 0, so that it counts as stale; and every compiled metric has
    the extractor [NewExtractor] returned for its configuration, the name
    derived from it, and as label names that extractor's sorted paths,
    sanitised, in the same order. *)
Theorem startup_outcome
    `{Strconv} {E : Type} `{ExtractorAPI E} (cfg : config.Cfg) :
  ((exists c l, newGraphqlCollector cfg = Returns (c, l))
   <-> Forall (λ q, Forall (λ m, (NewExtractor (config.LabelPathSeparator cfg)
                                    (config.Value m) (config.Labels m)).1 <> None)
                           (config.Metrics q))
              (config.Queries cfg))
  /\ ((forall c l, newGraphqlCollector cfg <> Returns (c, l))
      <-> newGraphqlCollector cfg = Panics)
  /\ (forall c l,
         newGraphqlCollector cfg = Returns (c, l) ->
         Query <$> cachedQuerySet c = config.query <$> config.Queries cfg
         /\ cachedAt c = 0
         /\ updaterIsRunning c = false
         /\ graphqlURL c = config.GraphqlURL cfg
         /\ Forall (λ qs, Forall (λ cm,
               (NewExtractor (config.LabelPathSeparator cfg) (config.Value (Config cm))
                  (config.Labels (Config cm))).1 = Some (Extractor cm)
               /\ labelNamesOf (Collector cm) = labelName <$> GetSortedPaths (Extractor cm)
               /\ nameOf (Collector cm) = metricName cfg (Config cm)) (Metrics qs))
             (cachedQuerySet c)).
Proof.
  split; [|split].
  - split.
    + intros (c & l & Hr). unfold newGraphqlCollector, mbind in Hr.
      destruct (mapM (newQuerySet cfg) (config.Queries cfg)) as [qs|] eqn:Hqs; [|discriminate].
      apply Forall_forall. intros q Hq.
      destruct (mapM_Returns_elem _ _ _ q Hqs Hq) as (b & _ & Hb).
      apply (proj1 (newQuerySet_Returns_iff cfg q)). eauto.
    + intros Hall.
      destruct (mapM_Returns_total (newQuerySet cfg) (config.Queries cfg)) as [qs Hqs].
      { eapply Forall_impl; [exact Hall|]. intros q Hq.
        exact (proj2 (newQuerySet_Returns_iff cfg q) Hq). }
      unfold newGraphqlCollector, mbind. rewrite Hqs. do 2 eexists. reflexivity.
  - destruct (newGraphqlCollector cfg) as [[c l]|]; split; try reflexivity.
    + intros Hno. exfalso. exact (Hno c l eq_refl).
    + discriminate.
    + intros _ c l. discriminate.
  - intros c l Hnew. split; [exact (compiled_queries cfg c l Hnew)|].
    split; [|split; [|split]].
    + unfold newGraphqlCollector, mbind, Run_bind in Hnew.
      destruct (mapM _ _); [|discriminate]. injection Hnew as <- <-. reflexivity.
    + unfold newGraphqlCollector, mbind, Run_bind in Hnew.
      destruct (mapM _ _); [|discriminate]. injection Hnew as <- <-. reflexivity.
    + unfold newGraphqlCollector, mbind, Run_bind in Hnew.
      destruct (mapM _ _); [|discriminate]. injection Hnew as <- <-. reflexivity.
    + apply (compiled_metrics_Forall cfg _ c l); [|exact Hnew].
      intros q m cm lm Hm. apply newMetric_Returns in Hm as (-> & -> & Hex).
      split; [exact Hex|]. rewrite newCollector_kind.
      destruct (String.eqb _ _); split; reflexivity.
Qed.

(** ** Names *)

Lemma substring_all (s : string) : String.substring 0 (String.length s) s = s.
Proof. induction s as [|a s IH]; [reflexivity|]. simpl. rewrite IH. reflexivity. Qed.

Lemma hasChar_append c (a b : string) : hasChar c (a +:+ b) = hasChar c a || hasChar c b.
Proof.
  induction a as [|x a IH]; [reflexivity|]. simpl. rewrite IH. apply orb_assoc.
Qed.

Lemma replaceFrom_char c new fuel a rest :
  replaceFrom (S fuel) (String a rest) (String c EmptyString) new
  = if Ascii.ascii_dec c a
    then new +:+ replaceFrom fuel rest (String c EmptyString) new
    else String a (replaceFrom fuel rest (String c EmptyString) new).
Proof.
  cbn [replaceFrom String.prefix].
  destruct (Ascii.ascii_dec c a) as [_|_]; [|reflexivity].
  replace (String.prefix EmptyString rest) with true by (destruct rest; reflexivity).
  cbn [String.length String.substring].
  replace (S (String.length rest) - 1)%nat with (String.length rest) by lia.
  rewrite substring_all. reflexivity.
Qed.

(** Replacing a character by a text without it leaves none of it. *)
Lemma replaceFrom_removes c new fuel : forall s,
  hasChar c new = false ->
  (String.length s < fuel)%nat ->
  hasChar c (replaceFrom fuel s (String c EmptyString) new) = false.
Proof.
  induction fuel as [|fuel IH]; intros s Hnew Hlen; [lia|].
  destruct s as [|a rest]; [reflexivity|].
  rewrite replaceFrom_char. simpl in Hlen.
  destruct (Ascii.ascii_dec c a) as [_|Hne].
  - rewrite hasChar_append, Hnew. apply IH; [exact Hnew|lia].
  - cbn [hasChar]. assert (Ascii.eqb c a = false) as -> by (apply Ascii.eqb_neq; exact Hne).
    apply IH; [exact Hnew|lia].
Qed.

Lemma Replace_removes c new s :
  hasChar c new = false -> hasChar c (Replace s (String c EmptyString) new) = false.
Proof.
  intros Hnew. unfold Replace. apply replaceFrom_removes; [exact Hnew|lia].
Qed.

(** X10: the names handed to the Prometheus client.  A label name never
    holds a dot, whatever the path it comes from; the name derived for a
    metric without one is the prefix followed by the value path with its
    commas replaced, and a configured name is used as it stands. *)
Theorem sanitised_names (cfg : config.Cfg) (m : config.Metric) (label : string) :
  hasChar "." (labelName label) = false
  /\ (config.Name m = "" ->
      exists suffix, metricName cfg m = config.MetricsPrefix cfg +:+ suffix
                     /\ hasChar "," suffix = false)
  /\ (config.Name m <> "" -> metricName cfg m = config.Name m).
Proof.
  split; [|split].
  - unfold labelName. apply Replace_removes. reflexivity.
  - intros Hname. unfold metricName. rewrite Hname. cbn [String.eqb].
    eexists. split; [reflexivity|]. apply Replace_removes. reflexivity.
  - intros Hname. unfold metricName.
    destruct (String.eqb (config.Name m) "") eqn:He; [|reflexivity].
    apply String.eqb_eq in He. contradiction.
Qed.

(** ** Reading the configuration *)

Lemma readContent_not_empty os path content :
  internal_config.readContent os path = ReadOk content -> content <> "".
Proof.
  unfold internal_config.readContent.
  destruct (statNotExist os path); simpl; [intros [= <-]; discriminate|].
  destruct (readFile os path) as [e|c]; [discriminate|].
  destruct c as [|a c]; simpl; intros [= <-]; discriminate.
Qed.

Lemma Init_reads `{internal_config.YamlDecoder} os os' g path :
  internal_config.readContent os path = internal_config.readContent os' path ->
  lookupEnv os "GRAPHQLAPITOKEN" = lookupEnv os' "GRAPHQLAPITOKEN" ->
  internal_config.Init os g path = internal_config.Init os' g path.
Proof. intros Hread Henv. unfold internal_config.Init. rewrite Hread, Henv. reflexivity. Qed.

Lemma pkg_Init_reads `{pkg_config.JsonDecoder} os os' g path :
  internal_config.readContent os path = internal_config.readContent os' path ->
  pkg_config.Init os g path = pkg_config.Init os' g path.
Proof. intros Hread. unfold pkg_config.Init. rewrite Hread. reflexivity. Qed.

(** X11: what [Init] of internal/config leaves behind.  [ConfigPath] is
    set whatever happens, and the closing line is logged exactly when nil
    is returned.  When nil is returned, the text decoded was not empty and
    decoded without error into a non-nil [Config]; the query timeout is
    never 0 (60 replaces it); the token is the one of the environment
    variable when it is set, also when it is set to the empty string;
    every other field is as decoded. *)
Theorem Init_contract `{internal_config.YamlDecoder}
    (os : OS) (g : internal_config.Globals) (path : string) :
  internal_config.ConfigPath (internal_config.Init os g path).1.1 = path
  /\ ((internal_config.Init os g path).2 <> []
      <-> (internal_config.Init os g path).1.2 = Returns None)
  /\ ((internal_config.Init os g path).1.2 = Returns None ->
      exists content d c,
        internal_config.readContent os path = ReadOk content
        /\ content <> ""
        /\ internal_config.yamlUnmarshal content (internal_config.Config g) = (Some d, None)
        /\ internal_config.Config (internal_config.Init os g path).1.1 = Some c
        /\ config.QueryTimeout c <> 0
        /\ config.QueryTimeout c
           = (if config.QueryTimeout d =? 0 then 60 else config.QueryTimeout d)
        /\ config.GraphqlAPIToken c
           = default (config.GraphqlAPIToken d) (lookupEnv os "GRAPHQLAPITOKEN")
        /\ config.MetricsPrefix c = config.MetricsPrefix d
        /\ config.GraphqlURL c = config.GraphqlURL d
        /\ config.CacheExpire c = config.CacheExpire d
        /\ config.FailFast c = config.FailFast d
        /\ config.ExtendCacheOnError c = config.ExtendCacheOnError d
        /\ config.LabelPathSeparator c = config.LabelPathSeparator d
        /\ config.Queries c = config.Queries d).
Proof.
  unfold internal_config.Init.
  destruct (internal_config.readContent os path) as [e|content] eqn:Hread.
  { simpl. repeat split; try discriminate; intros; congruence. }
  destruct (internal_config.yamlUnmarshal content (internal_config.Config g))
    as [[d|] [e|]] eqn:Hdec;
    try (simpl; repeat split; try discriminate; intros; congruence).
  split; [reflexivity|]. split; [split; [reflexivity|discriminate]|].
  intros _. exists content, d. eexists.
  split; [reflexivity|]. split; [exact (readContent_not_empty os path content Hread)|].
  split; [exact Hdec|]. split; [reflexivity|].
  destruct (lookupEnv os "GRAPHQLAPITOKEN") as [val|]; simpl;
    destruct (config.QueryTimeout d =? 0) eqn:Hq; simpl;
    repeat split; try reflexivity; try discriminate; lia.
Qed.

(** X12: for both [Init]s a configuration file that does not exist, an
    empty one and one holding [{}] are the same, given the same
    environment: [os.ReadFile] is not consulted when [os.Stat] reports
    that the file does not exist, and an empty content is decoded as
    [{}]. *)
Theorem missing_file_is_an_empty_file
    `{internal_config.YamlDecoder} `{pkg_config.JsonDecoder}
    (os os' : OS) (path : string)
    (g : internal_config.Globals) (g' : pkg_config.Globals) :
  statNotExist os path = true ->
  statNotExist os' path = false ->
  readFile os' path = ReadOk "" \/ readFile os' path = ReadOk "{}" ->
  lookupEnv os "GRAPHQLAPITOKEN" = lookupEnv os' "GRAPHQLAPITOKEN" ->
  internal_config.Init os g path = internal_config.Init os' g path
  /\ pkg_config.Init os g' path = pkg_config.Init os' g' path.
Proof.
  intros Hmissing Hthere Hcontent Henv.
  assert (Hread : internal_config.readContent os path
                  = internal_config.readContent os' path).
  { unfold internal_config.readContent. rewrite Hmissing, Hthere. simpl.
    destruct Hcontent as [-> | ->]; reflexivity. }
  split; [apply Init_reads; assumption|apply pkg_Init_reads; assumption].
Qed.

Lemma missing_file_is_an_empty_file_witness :
  internal_config.Init (decoders.noFile decoders.tokenEnv)
    {| internal_config.Config := None; internal_config.ConfigPath := "" |} "config.yml"
  = internal_config.Init (decoders.oneFile "" decoders.tokenEnv)
      {| internal_config.Config := None; internal_config.ConfigPath := "" |} "config.yml"
  /\ pkg_config.Init (decoders.noFile decoders.tokenEnv)
       {| pkg_config.Config := None; pkg_config.ConfigPath := "" |} "config.yml"
     = pkg_config.Init (decoders.oneFile "" decoders.tokenEnv)
         {| pkg_config.Config := None; pkg_config.ConfigPath := "" |} "config.yml".
Proof.
  apply (missing_file_is_an_empty_file
           (decoders.noFile decoders.tokenEnv) (decoders.oneFile "" decoders.tokenEnv)
           "config.yml"); [reflexivity|reflexivity|left; reflexivity|reflexivity].
Defined.

(** X13: a failure to read an existing file is returned before anything
    is decoded: [Config] keeps the value it had, only [ConfigPath] is
    set, and nothing is logged, whatever the decoder and the environment;
    so for both packages. *)
Theorem read_error_leaves_Config
    `{internal_config.YamlDecoder} `{pkg_config.JsonDecoder}
    (os : OS) (path e : string)
    (g : internal_config.Globals) (g' : pkg_config.Globals) :
  statNotExist os path = false ->
  readFile os path = ReadError e ->
  internal_config.Init os g path
  = ({| internal_config.Config := internal_config.Config g;
        internal_config.ConfigPath := path |}, Returns (Some e), [])
  /\ pkg_config.Init os g' path
     = ({| pkg_config.Config := pkg_config.Config g';
           pkg_config.ConfigPath := path |}, Some e, []).
Proof.
  intros Hthere Hread.
  unfold internal_config.Init, pkg_config.Init, internal_config.readContent.
  rewrite Hthere, Hread. split; reflexivity.
Qed.

Lemma read_error_leaves_Config_witness :
  internal_config.Init (decoders.unreadable decoders.tokenEnv)
    {| internal_config.Config := Some decoders.zeroCfg;
       internal_config.ConfigPath := "" |} "config.yml"
  = ({| internal_config.Config := Some decoders.zeroCfg;
        internal_config.ConfigPath := "config.yml" |},
     Returns (Some "permission denied"), [])
  /\ pkg_config.Init (decoders.unreadable decoders.tokenEnv)
       {| pkg_config.Config := None; pkg_config.ConfigPath := "" |} "config.yml"
     = ({| pkg_config.Config := None; pkg_config.ConfigPath := "config.yml" |},
        Some "permission denied", []).
Proof.
  apply (read_error_leaves_Config (decoders.unreadable decoders.tokenEnv)
           "config.yml" "permission denied"); reflexivity.
Defined.
